(** * Bollinger breakout dashboard: signal / position engine

    A shallow embedding of [trading_dashboard.py]: the indicator functions,
    the breakout detector, the per-asset position state machine
    ([bollinger_signal]), the trade ledger ([record_trade]), the performance
    aggregator ([update_performance_metrics]) and the evaluation cycle
    ([fetch_asset_data], [update_all_signals]).

    Numbers.  The program computes with IEEE doubles.  Here a finite double
    is an exact rational ([Q]) and a NaN is [None] in an [option Q]; rounding
    error is not modelled.  Equalities between computed numbers are therefore
    stated with [==] ([Qeq]).  Square roots ([np.sqrt], the root inside
    [.std()]) are a parameter [sqrtQ] of the development, of which only
    non-negativity is assumed.  Division by a zero entry price has no
    rational value; market prices are positive, and the reachable states
    below are those produced from positive closing prices.

    Clock reads ([datetime.now()]: [entry_time] of a position, [timestamp]
    of a trade) influence no decision and are left out of the records. *)

From Stdlib Require Import QArith Qabs Qround Lqa ZArith Lia Ascii String.
From stdpp Require Import gmap strings list fin_maps.

#[local] Open Scope Q_scope.

(** ** Numbers *)

Module Num.

Definition Qleb (x y : Q) : bool := Qle_bool x y.
Definition Qltb (x y : Q) : bool := negb (Qle_bool y x).

(** Python's [max(a, b)] keeps [a] unless [b > a]; [min(a, b)] keeps [a]
    unless [b < a]. *)
Definition py_max (a b : Q) : Q := if Qltb a b then b else a.
Definition py_min (a b : Q) : Q := if Qltb b a then b else a.

(** [sum(xs)]: left fold from 0. *)
Definition py_sum (xs : list Q) : Q := fold_left Qplus xs 0.

Definition of_nat (n : nat) : Q := inject_Z (Z.of_nat n).

(** [np.mean(xs)]. *)
Definition mean (xs : list Q) : Q := py_sum xs / of_nat (length xs).

(** Nearest integer, ties to even ([np.rint]). *)
Definition rint (x : Q) : Z :=
  let f := Qfloor x in
  let d := x - inject_Z f in
  if Qltb d (1 # 2) then f
  else if Qltb (1 # 2) d then (f + 1)%Z
  else if Z.even f then f else (f + 1)%Z.

(** [round(x, ndigits)] on a numpy double. *)
Definition py_round (x : Q) (ndigits : nat) : Q :=
  let scale := inject_Z (10 ^ Z.of_nat ndigits) in
  inject_Z (rint (x * scale)) / scale.

(** An executable square root (rounded down to a multiple of [1/den]),
    used to run the model on concrete inputs. *)
Definition sqrt_floor (x : Q) : Q :=
  Z.sqrt (Qnum x * Zpos (Qden x)) # Qden x.

(** Comparisons of a double against a possibly-NaN double: every
    comparison with NaN is false. *)
Definition le_nan (x : Q) (y : option Q) : bool :=
  match y with Some v => Qleb x v | None => false end.
Definition ge_nan (x : Q) (y : option Q) : bool :=
  match y with Some v => Qleb v x | None => false end.
Definition lt_nan (x : Q) (y : option Q) : bool :=
  match y with Some v => Qltb x v | None => false end.
Definition gt_nan (x : Q) (y : option Q) : bool :=
  match y with Some v => Qltb v x | None => false end.

End Num.
Import Num.

(** [s.iloc[-k]] for [k >= 1]: an [IndexError] is [None]. *)
Definition iloc_neg {A} (s : list A) (k : nat) : option A :=
  if decide (1 ≤ k ≤ length s)%nat then s !! (length s - k)%nat else None.

(** ** Data model *)

(** The [signal] of a position and the [signal_type] of a trade. *)
Inductive side := BUY | SELL.

(** The signal of a snapshot. *)
Inductive signal_t := Sig (d : side) | NEUTRAL | ERROR.

Inductive stop_kind := Initial | Trailing.

Definition stop_kind_str (k : stop_kind) : string :=
  match k with Initial => "Initial" | Trailing => "Trailing" end.

(** An entry of [active_trades]. *)
Record position := mk_position {
  entry_price : Q;
  signal : side;
  highest_since_entry : Q;
  lowest_since_entry : Q;
  stop_loss : Q;
  stop_type : stop_kind }.

(** An entry of [trade_history]. *)
Record trade := mk_trade {
  t_symbol : string;
  t_entry_price : Q;
  t_exit_price : Q;
  t_signal_type : side;
  t_pnl : Q;
  t_reason : string }.

Record metrics := mk_metrics {
  total_trades : nat;
  winning_trades : nat;
  losing_trades : nat;
  total_pnl : Q;
  win_rate : Q;
  avg_win : Q;
  avg_loss : Q;
  profit_factor : Q;
  sharpe_ratio : Q;
  max_drawdown : Q }.

(** A reason string: literal text, with the number an f-string formats
    into it kept unformatted ([{:.2f}] marks its place). *)
Record reason := mk_reason { r_text : string; r_arg : option Q }.

(** The third component of [bollinger_signal]'s result: [{}] is [None], and
    the key [in_position], always [True] in a non-empty dict, is left
    out. *)
Record position_info := mk_info {
  pi_entry_price : Q;
  pi_pnl : Q;
  pi_current_stop : Q;
  pi_stop_type : stop_kind;
  pi_position_type : side }.

Record snapshot := mk_snapshot {
  s_symbol : string;
  s_price : Q;
  s_change : Q;
  s_signal : signal_t;
  s_reason : reason;
  s_position : option position_info;
  s_rsi : Q;
  s_atr : Q }.

Record candle := mk_candle {
  c_open : Q; c_high : Q; c_low : Q; c_close : Q; c_volume : Q }.

(** The four module-level collections. *)
Record engine := mk_engine {
  latest_signals : gmap string snapshot;
  active_trades : gmap string position;
  trade_history : list trade;
  performance_metrics : metrics }.

Definition TRADING_FEE : Q := 0.001.
Definition HISTORY_MAXLEN : nat := 200.

Definition ASSETS : list string :=
  ["BTCUSDT"; "ETHUSDT"; "BNBUSDT"; "XRPUSDT"; "SOLUSDT"; "ADAUSDT"]%string.

Definition metrics0 : metrics := mk_metrics 0 0 0 0 0 0 0 0 0 0.

Definition engine0 : engine := mk_engine ∅ ∅ [] metrics0.

(** ** Trade ledger *)

(** [deque(maxlen=n).append(x)]: append on the right, then drop from the
    left while over capacity. *)
Definition deque_append {A} (maxlen : nat) (d : list A) (x : A) : list A :=
  let d' := d ++ [x] in
  if (maxlen <? length d')%nat then drop 1 d' else d'.

(** [symbol.replace(old, '')] for a non-empty [old]: occurrences are removed
    left to right, without overlap.  [skip] counts the characters of a
    match still to be dropped. *)
Fixpoint remove_all (old : string) (skip : nat) (s : string) : string :=
  match s with
  | EmptyString => EmptyString
  | String c s' =>
      match skip with
      | S k => remove_all old k s'
      | O => if String.prefix old s
             then remove_all old (String.length old - 1) s'
             else String c (remove_all old 0 s')
      end
  end.

Definition display_symbol (symbol : string) : string :=
  remove_all "USDT" 0 symbol.

Section Dashboard.

(** The square root of the numeric library; its results are never
    negative. *)
Variable sqrtQ : Q -> Q.
Hypothesis sqrtQ_nonneg : forall x, 0 <= sqrtQ x.

(** *** Performance aggregator *)

(** [np.std(xs)]: population standard deviation. *)
Definition np_std (xs : list Q) : Q :=
  let m := mean xs in
  sqrtQ (mean (map (fun x => (x - m) * (x - m)) xs)).

Fixpoint cumsum_from (acc : Q) (xs : list Q) : list Q :=
  match xs with
  | [] => []
  | x :: r => (acc + x) :: cumsum_from (acc + x) r
  end.

(** [np.cumsum(xs)]. *)
Definition np_cumsum (xs : list Q) : list Q :=
  match xs with
  | [] => []
  | x :: r => x :: cumsum_from x r
  end.

Fixpoint runmax_from (acc : Q) (xs : list Q) : list Q :=
  match xs with
  | [] => []
  | x :: r => py_max acc x :: runmax_from (py_max acc x) r
  end.

(** [np.maximum.accumulate(xs)]. *)
Definition maximum_accumulate (xs : list Q) : list Q :=
  match xs with
  | [] => []
  | x :: r => x :: runmax_from x r
  end.

(** [np.max(xs)] of a non-empty array. *)
Definition np_max (xs : list Q) : Q :=
  match xs with
  | [] => 0
  | x :: r => fold_left py_max r x
  end.

(** [update_performance_metrics()], reading the ledger [h] and updating
    the summary [pm]. *)
Definition update_performance_metrics (h : list trade) (pm : metrics) : metrics :=
  match h with
  | [] => pm
  | _ =>
      let pnls := map t_pnl h in
      let wins := List.filter (fun p => Qltb 0 p) pnls in
      let losses := List.filter (fun p => Qltb p 0) pnls in
      let sharpe :=
        if (1 <? length pnls)%nat
        then (if Qltb 0 (np_std pnls)
              then mean pnls / np_std pnls * sqrtQ (of_nat (length pnls))
              else 0)
        else sharpe_ratio pm in
      let cumulative := np_cumsum pnls in
      let drawdown := zip_with Qminus (maximum_accumulate cumulative) cumulative in
      {| total_trades := length pnls;
         winning_trades := length wins;
         losing_trades := length losses;
         total_pnl := py_sum pnls;
         win_rate := match pnls with
                     | [] => 0
                     | _ => of_nat (length wins) / of_nat (length pnls) * 100
                     end;
         avg_win := match wins with
                    | [] => 0
                    | _ => py_sum wins / of_nat (length wins)
                    end;
         avg_loss := match losses with
                     | [] => 0
                     | _ => py_sum losses / of_nat (length losses)
                     end;
         profit_factor := match losses with
                          | [] => 0
                          | _ => if Qeq_bool (py_sum losses) 0 then 0
                                 else py_sum wins / Qabs (py_sum losses)
                          end;
         sharpe_ratio := sharpe;
         max_drawdown := if (0 <? length drawdown)%nat
                         then np_max drawdown else 0 |}
  end.

(** [record_trade(symbol, entry_price, exit_price, signal_type, pnl, reason)]. *)
Definition record_trade (st : engine) (symbol : string)
    (entry exit : Q) (signal_type : side) (pnl : Q) (why : string) : engine :=
  let h := deque_append HISTORY_MAXLEN (trade_history st)
             (mk_trade symbol entry exit signal_type pnl why) in
  {| latest_signals := latest_signals st;
     active_trades := active_trades st;
     trade_history := h;
     performance_metrics := update_performance_metrics h (performance_metrics st) |}.

(** *** Indicator library *)

(** A series is a list of possibly-NaN values. *)
Fixpoint all_defined (w : list (option Q)) : option (list Q) :=
  match w with
  | [] => Some []
  | None :: _ => None
  | Some x :: r => option_map (cons x) (all_defined r)
  end.

(** The values a [rolling(window=w)] aggregation sees at index [i]: the
    [w] entries ending at [i], provided there are [w] of them and none is
    NaN ([min_periods] defaults to the window size). *)
Definition window_at (s : list (option Q)) (w i : nat) : option (list Q) :=
  if decide (1 ≤ w ≤ i + 1)%nat
  then all_defined (take w (drop (i + 1 - w) s))
  else None.

Definition rolling (agg : list Q -> option Q) (s : list (option Q)) (w : nat)
    : list (option Q) :=
  map (fun i => match window_at s w i with
                | Some vals => agg vals
                | None => None
                end) (seq 0 (length s)).

Definition agg_mean (vals : list Q) : option Q := Some (mean vals).

(** Sample standard deviation ([ddof=1]); NaN on a single observation. *)
Definition agg_std (vals : list Q) : option Q :=
  if (length vals <=? 1)%nat then None
  else
    let m := mean vals in
    Some (sqrtQ (py_sum (map (fun x => (x - m) * (x - m)) vals)
                 / of_nat (length vals - 1))).

Definition rolling_mean (s : list (option Q)) (w : nat) := rolling agg_mean s w.
Definition rolling_std (s : list (option Q)) (w : nat) := rolling agg_std s w.

Definition nan_lift2 (f : Q -> Q -> Q) (a b : option Q) : option Q :=
  match a, b with
  | Some x, Some y => Some (f x y)
  | _, _ => None
  end.

(** [calculate_bollinger_bands(prices, length, std_dev)]; the triple of
    [None]s is [None]. *)
Definition calculate_bollinger_bands (prices : list Q) (len : nat) (std_dev : Q)
    : option (list (option Q) * list (option Q) * list (option Q)) :=
  if (length prices <? len)%nat then None
  else
    let s := map Some prices in
    let sma := rolling_mean s len in
    let std := rolling_std s len in
    let scaled := map (option_map (fun v => v * std_dev)) std in
    let upper_band := zip_with (nan_lift2 Qplus) sma scaled in
    let lower_band := zip_with (nan_lift2 Qminus) sma scaled in
    Some (upper_band, sma, lower_band).

(** [s.diff()] and [s.shift()]. *)
Definition shift (s : list Q) : list (option Q) :=
  take (length s) (None :: map Some s).

Definition diff (s : list Q) : list (option Q) :=
  zip_with (fun cur prev => option_map (fun p => cur - p) prev) s (shift s).

(** [calculate_rsi(prices, period)]. *)
Definition calculate_rsi (prices : list Q) (period : nat) : list (option Q) :=
  let delta := diff prices in
  let ups := map (fun d => match d with
                           | Some v => if Qltb 0 v then Some v else Some 0
                           | None => Some 0
                           end) delta in
  let downs := map (fun d => match d with
                             | Some v => if Qltb v 0 then Some (- v) else Some (- 0)
                             | None => Some (- 0)
                             end) delta in
  let gain := rolling_mean ups period in
  let loss := rolling_mean downs period in
  let rs := zip_with (nan_lift2 (fun g l => g / (l + 1e-10))) gain loss in
  map (option_map (fun r => 100 - 100 / (1 + r))) rs.

(** [calculate_atr(df, period)]: the row-wise [max] skips the NaN of the
    first row. *)
Definition calculate_atr (df : list candle) (period : nat) : list (option Q) :=
  let prev_close := shift (map c_close df) in
  let tr := zip_with (fun c pc =>
              let hl := c_high c - c_low c in
              match pc with
              | Some p => Some (py_max (py_max hl (Qabs (c_high c - p)))
                                       (Qabs (c_low c - p)))
              | None => Some hl
              end) df prev_close in
  rolling_mean tr period.



(** *** Signal detector *)

Definition new_buy_signal (previous_price current_price : Q)
    (previous_upper current_upper : option Q) : bool :=
  le_nan previous_price previous_upper && gt_nan current_price current_upper.

Definition new_sell_signal (previous_price current_price : Q)
    (previous_lower current_lower : option Q) : bool :=
  ge_nan previous_price previous_lower && lt_nan current_price current_lower.

(** [abs(current_price - current_sma) / current_sma < 0.002].  A zero mean
    makes the quotient infinite or NaN, for which the test is false. *)
Definition at_sma (current_price : Q) (current_sma : option Q) : bool :=
  match current_sma with
  | Some m => if Qeq_bool m 0 then false
              else Qltb (Qabs (current_price - m) / m) 0.002
  | None => false
  end.

(** *** Position state machine *)

(** The two assignments to [highest_since_entry] and [lowest_since_entry]
    that open the in-position branch. *)
Definition track_extremes (entry_data : position) (current_price : Q) : position :=
  {| entry_price := entry_price entry_data;
     signal := signal entry_data;
     highest_since_entry := py_max (highest_since_entry entry_data) current_price;
     lowest_since_entry := py_min (lowest_since_entry entry_data) current_price;
     stop_loss := stop_loss entry_data;
     stop_type := stop_type entry_data |}.

Definition set_stop (entry_data : position) (stop : Q) (kind : stop_kind) : position :=
  {| entry_price := entry_price entry_data;
     signal := signal entry_data;
     highest_since_entry := highest_since_entry entry_data;
     lowest_since_entry := lowest_since_entry entry_data;
     stop_loss := stop;
     stop_type := kind |}.

(** The [if signal_type == 'BUY': ... else: ...] block: the unrealized
    P&L, the stop written into the position, and, when the stop test of the
    branch taken succeeds, the exit reason and the message of the close. *)
Definition manage_stop (entry_data : position) (current_price : Q)
    : position * Q * option (string * string) :=
  let entry := entry_price entry_data in
  match signal entry_data with
  | BUY =>
      let pnl := ((current_price - entry) / entry) * 100 in
      let highest := highest_since_entry entry_data in
      if Qleb 1 pnl then
        let trailing_stop := highest * 0.98 in
        let entry_data :=
          set_stop entry_data (py_max (stop_loss entry_data) trailing_stop) Trailing in
        (entry_data, pnl,
         if Qleb current_price trailing_stop
         then Some ("Trailing", "Closed (P&L: {:.2f}%)")%string else None)
      else
        let entry_data := set_stop entry_data (entry * 0.98) Initial in
        (entry_data, pnl,
         if Qleb current_price (stop_loss entry_data)
         then Some ("Stop", "Stop hit (P&L: {:.2f}%)")%string else None)
  | SELL =>
      let pnl := ((entry - current_price) / entry) * 100 in
      let lowest := lowest_since_entry entry_data in
      if Qleb 1 pnl then
        let trailing_stop := lowest * 1.02 in
        let entry_data :=
          set_stop entry_data (py_min (stop_loss entry_data) trailing_stop) Trailing in
        (entry_data, pnl,
         if Qleb trailing_stop current_price
         then Some ("Trailing", "Closed (P&L: {:.2f}%)")%string else None)
      else
        let entry_data := set_stop entry_data (entry * 1.02) Initial in
        (entry_data, pnl,
         if Qleb (stop_loss entry_data) current_price
         then Some ("Stop", "Stop hit (P&L: {:.2f}%)")%string else None)
  end.

Definition with_trades (st : engine) (m : gmap string position) : engine :=
  {| latest_signals := latest_signals st;
     active_trades := m;
     trade_history := trade_history st;
     performance_metrics := performance_metrics st |}.

(** [del active_trades[symbol]] and [active_trades[symbol] = p]. *)
Definition del_trade (symbol : string) (st : engine) : engine :=
  with_trades st (delete symbol (active_trades st)).
Definition put_trade (symbol : string) (p : position) (st : engine) : engine :=
  with_trades st (<[symbol := p]> (active_trades st)).

Definition initial_stop (d : side) (price : Q) : Q :=
  match d with BUY => price * 0.98 | SELL => price * 1.02 end.

(** The dict stored on an entry (plain or after a reversal). *)
Definition open_position (d : side) (price : Q) : position :=
  mk_position price d price price (initial_stop d price) Initial.

Definition open_info (d : side) (price : Q) : position_info :=
  mk_info price 0 (initial_stop d price) Initial d.

Definition side_is_buy (d : side) : bool :=
  match d with BUY => true | SELL => false end.

Definition outcome : Type := signal_t * reason * option position_info.

(** The body of [bollinger_signal] once the last two bars are read. *)
Definition evaluate (symbol : string) (previous_price current_price : Q)
    (previous_upper previous_lower current_upper current_lower current_sma : option Q)
    (st : engine) : engine * outcome :=
  let buy := new_buy_signal previous_price current_price previous_upper current_upper in
  let sell := new_sell_signal previous_price current_price previous_lower current_lower in
  let near := at_sma current_price current_sma in
  match active_trades st !! symbol with
  | Some entry_data =>
      let signal_type := signal entry_data in
      let entry := entry_price entry_data in
      let '(entry_data, pnl, stop_exit) :=
        manage_stop (track_extremes entry_data current_price) current_price in
      let net_pnl := pnl - TRADING_FEE * 200 in
      match stop_exit with
      | Some (why, msg) =>
          (del_trade symbol
             (record_trade st symbol entry current_price signal_type net_pnl why),
           (NEUTRAL, mk_reason msg (Some net_pnl), None))
      | None =>
          if near then
            (del_trade symbol
               (record_trade st symbol entry current_price signal_type net_pnl "SMA"),
             (NEUTRAL, mk_reason "Exit at SMA (P&L: {:.2f}%)" (Some net_pnl), None))
          else if (side_is_buy signal_type && sell)
                  || (negb (side_is_buy signal_type) && buy) then
            let new_signal := if sell then SELL else BUY in
            (put_trade symbol (open_position new_signal current_price)
               (del_trade symbol
                  (record_trade st symbol entry current_price signal_type
                     net_pnl "Reversal")),
             (Sig new_signal, mk_reason "Reversed (Prev: {:.2f}%)" (Some net_pnl),
              Some (open_info new_signal current_price)))
          else
            (put_trade symbol entry_data st,
             (Sig signal_type,
              mk_reason (stop_kind_str (stop_type entry_data) ++ " stop active") None,
              Some (mk_info entry (py_round pnl 2) (stop_loss entry_data)
                      (stop_type entry_data) signal_type)))
      end
  | None =>
      if buy then
        (put_trade symbol (open_position BUY current_price) st,
         (Sig BUY, mk_reason "NEW LONG" None, Some (open_info BUY current_price)))
      else if sell then
        (put_trade symbol (open_position SELL current_price) st,
         (Sig SELL, mk_reason "NEW SHORT" None, Some (open_info SELL current_price)))
      else (st, (NEUTRAL, mk_reason "Between bands" None, None))
  end.

(** [bollinger_signal(symbol, prices_df, upper_band, lower_band, sma)];
    [None] is the [IndexError] of a series shorter than two bars. *)
Definition bollinger_signal (symbol : string) (closes : list Q)
    (upper_band lower_band sma : list (option Q)) (st : engine)
    : option (engine * outcome) :=
  current_price ← iloc_neg closes 1;
  previous_price ← iloc_neg closes 2;
  current_upper ← iloc_neg upper_band 1;
  current_lower ← iloc_neg lower_band 1;
  current_sma ← iloc_neg sma 1;
  previous_upper ← iloc_neg upper_band 2;
  previous_lower ← iloc_neg lower_band 2;
  Some (evaluate symbol previous_price current_price previous_upper previous_lower
          current_upper current_lower current_sma st).

(** *** Evaluation cycle *)

Definition error_snapshot (symbol : string) (why : string) : snapshot :=
  mk_snapshot (display_symbol symbol) 0 0 ERROR (mk_reason why None) None 0 0.

(** The text of a caught exception, [str(e)[:20]], is not modelled. *)
Definition exception_text : string := "<exception>".

(** The market-data collaborator [fetch_binance_klines(symbol, interval,
    limit)]: a data frame or [None]. *)
Variable fetch : string -> string -> nat -> option (list candle).

(** [fetch_asset_data(symbol, interval)]. *)
Definition fetch_asset_data (symbol interval : string) (st : engine)
    : engine * snapshot :=
  match fetch symbol interval 250%nat with
  | None => (st, error_snapshot symbol "No data")
  | Some df =>
      if (length df <? 50)%nat then (st, error_snapshot symbol "No data")
      else
        let close_prices := map c_close df in
        match calculate_bollinger_bands close_prices 20 1 with
        | None => (st, error_snapshot symbol "Calc error")
        | Some (upper_band, sma_line, lower_band) =>
            match bollinger_signal symbol close_prices upper_band lower_band sma_line st with
            | None => (st, error_snapshot symbol exception_text)
            | Some (st', (sig, why, pos)) =>
                let rsi := calculate_rsi close_prices 14 in
                let atr := calculate_atr df 14 in
                match iloc_neg close_prices 1, iloc_neg close_prices 2,
                      iloc_neg rsi 1, iloc_neg atr 1 with
                | Some current_price, Some previous_price, Some last_rsi, Some last_atr =>
                    let change_pct :=
                      ((current_price - previous_price) / previous_price) * 100 in
                    (st',
                     {| s_symbol := display_symbol symbol;
                        s_price := py_round current_price 8;
                        s_change := py_round change_pct 2;
                        s_signal := sig;
                        s_reason := why;
                        s_position := pos;
                        s_rsi := match last_rsi with
                                 | Some v => py_round v 2
                                 | None => 50
                                 end;
                        s_atr := match last_atr with
                                 | Some v => py_round v 4
                                 | None => 0
                                 end |})
                | _, _, _, _ => (st', error_snapshot symbol exception_text)
                end
            end
        end
  end.

(** The loop of [update_all_signals] over a list of assets, filling the
    local dict [signals]. *)
Fixpoint scan_assets (interval : string) (assets : list string)
    (st : engine) (signals : gmap string snapshot) : engine * gmap string snapshot :=
  match assets with
  | [] => (st, signals)
  | symbol :: rest =>
      let '(st', snap) := fetch_asset_data symbol interval st in
      scan_assets interval rest st' (<[symbol := snap]> signals)
  end.

Definition run_cycle (interval : string) (assets : list string) (st : engine) : engine :=
  let '(st', signals) := scan_assets interval assets st ∅ in
  {| latest_signals := signals;
     active_trades := active_trades st';
     trade_history := trade_history st';
     performance_metrics := performance_metrics st' |}.

(** [update_all_signals(interval)]. *)
Definition update_all_signals (interval : string) (st : engine) : engine :=
  run_cycle interval ASSETS st.

(** ** Vocabulary of the properties *)

(** The state of one position after the in-place updates of an evaluation at
    [current_price], its unrealized P&L, and the stop exit if one fires. *)
Definition managed (e : position) (current_price : Q) : position :=
  (manage_stop (track_extremes e current_price) current_price).1.1.
Definition unrealized (e : position) (current_price : Q) : Q :=
  (manage_stop (track_extremes e current_price) current_price).1.2.
Definition stop_exit (e : position) (current_price : Q) : option (string * string) :=
  (manage_stop (track_extremes e current_price) current_price).2.

(** Gross P&L in percent, as the specification words it. *)
Definition gross_pnl_percent (d : side) (entry price : Q) : Q :=
  match d with
  | BUY => (price - entry) / entry * 100
  | SELL => (entry - price) / entry * 100
  end.

Definition flip (d : side) : side :=
  match d with BUY => SELL | SELL => BUY end.

(** The breakout signal against the direction of an open position. *)
Definition opposite_signal (d : side) (previous_price current_price : Q)
    (previous_upper previous_lower current_upper current_lower : option Q) : bool :=
  match d with
  | BUY => new_sell_signal previous_price current_price previous_lower current_lower
  | SELL => new_buy_signal previous_price current_price previous_upper current_upper
  end.

(** The reversal path is taken: no stop exit, not at the mean, and the
    opposite breakout fires. *)
Definition reversal_due (e : position) (previous_price current_price : Q)
    (previous_upper previous_lower current_upper current_lower current_sma : option Q)
    : bool :=
  match stop_exit e current_price with
  | Some _ => false
  | None =>
      negb (at_sma current_price current_sma)
      && opposite_signal (signal e) previous_price current_price
           previous_upper previous_lower current_upper current_lower
  end.

(** The price breaches the stop stored in a position. *)
Definition breaches (p : position) (price : Q) : Prop :=
  match signal p with
  | BUY => price <= stop_loss p
  | SELL => stop_loss p <= price
  end.

Definition exit_reason_of (k : stop_kind) : string :=
  match k with Trailing => "Trailing" | Initial => "Stop" end.

(** Engine states the program can be in: the initial one, those after an
    evaluation of some asset on a positive closing price, and those after
    the snapshots of a cycle are published. *)
Inductive reachable : engine -> Prop :=
| reach_start : reachable engine0
| reach_eval symbol pp cp pu pl cu cl cs st :
    reachable st -> 0 < cp ->
    reachable (evaluate symbol pp cp pu pl cu cl cs st).1
| reach_publish signals st :
    reachable st ->
    reachable {| latest_signals := signals;
                 active_trades := active_trades st;
                 trade_history := trade_history st;
                 performance_metrics := performance_metrics st |}.

(** The provider only returns candles with a positive close. *)
Definition positive_closes : Prop :=
  forall symbol interval limit df,
    fetch symbol interval limit = Some df ->
    Forall (fun c => 0 < c_close c) df.

(** What every stored position satisfies. *)
Definition position_ok (p : position) : Prop :=
  0 < entry_price p
  /\ lowest_since_entry p <= entry_price p
  /\ entry_price p <= highest_since_entry p
  /\ match signal p with
     | BUY => stop_loss p <= highest_since_entry p * 0.98
     | SELL => lowest_since_entry p * 1.02 <= stop_loss p
     end.

(** Recording a list of trades, oldest first. *)
Definition record_all (ts : list trade) (st : engine) : engine :=
  fold_left (fun s t => record_trade s (t_symbol t) (t_entry_price t) (t_exit_price t)
                          (t_signal_type t) (t_pnl t) (t_reason t)) ts st.

(** The last two entries of a series, the window [bollinger_signal] reads. *)
Definition last_two {A} (s : list A) : option A * option A :=
  (iloc_neg s 2, iloc_neg s 1).

(** The two breakout booleans [bollinger_signal] computes from its series
    arguments. *)
Definition breakout_signals (closes : list Q) (upper_band lower_band : list (option Q))
    : option (bool * bool) :=
  current_price ← iloc_neg closes 1;
  previous_price ← iloc_neg closes 2;
  current_upper ← iloc_neg upper_band 1;
  current_lower ← iloc_neg lower_band 1;
  previous_upper ← iloc_neg upper_band 2;
  previous_lower ← iloc_neg lower_band 2;
  Some (new_buy_signal previous_price current_price previous_upper current_upper,
        new_sell_signal previous_price current_price previous_lower current_lower).

(** ** The rest of the program *)

(** What one HTTP attempt of [fetch_binance_klines] yields: status 429, an
    exception anywhere in the [try] block, or a parsed JSON body, which is
    a list of rows or something else ([None]).  Rows are kept as candles:
    the five numeric columns the function returns. *)
Inductive response :=
| RateLimited
| Raised
| Body (rows : option (list candle)).

(** What the function does besides returning. *)
Inductive klines_event :=
| Request (attempt : nat)
| Sleep (seconds : nat).

(** The [for attempt in ...] loop of [fetch_binance_klines], the answer to
    attempt [i] being [respond i]. *)
Fixpoint klines_loop (respond : nat -> response) (attempts : list nat)
    : option (list candle) * list klines_event :=
  match attempts with
  | [] => (None, [])
  | attempt :: rest =>
      match respond attempt with
      | RateLimited =>
          let '(r, tr) := klines_loop respond rest in
          (r, Request attempt :: Sleep (2 ^ attempt) :: tr)
      | Body (Some (row :: rows)) => (Some (row :: rows), [Request attempt])
      | Body _ =>
          let '(r, tr) := klines_loop respond rest in
          (r, Request attempt :: tr)
      | Raised =>
          let '(r, tr) := klines_loop respond rest in
          (r, Request attempt
              :: (if (attempt <? 2)%nat then Sleep 1 :: tr else tr))
      end
  end.

(** [fetch_binance_klines(symbol, interval, limit)] for a given sequence of
    answers: the frame or [None], and the trace of requests and sleeps. *)
Definition fetch_binance_klines (respond : nat -> response)
    : option (list candle) * list klines_event :=
  klines_loop respond (seq 0 3).

Definition slept (tr : list klines_event) : nat :=
  foldr (fun ev acc => match ev with Sleep n => (n + acc)%nat | Request _ => acc end)
        0%nat tr.

Definition requests (tr : list klines_event) : list nat :=
  omap (fun ev => match ev with Request i => Some i | Sleep _ => None end) tr.

(** A usable answer: a JSON list with at least one row. *)
Definition usable (r : response) : option (list candle) :=
  match r with
  | Body (Some (row :: rows)) => Some (row :: rows)
  | _ => None
  end.

(** [get_trades()]: [list(trade_history)[-50:]]. *)
Definition get_trades (st : engine) : list trade :=
  drop (length (trade_history st) - 50) (trade_history st).

(** The dict [interval_map] of [update_timeframe]. *)
Definition interval_map : gmap string string :=
  list_to_map [("1m", "1m"); ("3m", "3m"); ("5m", "5m"); ("15m", "15m");
               ("1h", "1h"); ("4h", "4h"); ("1d", "1d")]%string.

(** The keys of [interval_map]. *)
Definition supported_intervals : list string :=
  ["1m"; "3m"; "5m"; "15m"; "1h"; "4h"; "1d"]%string.

(** [interval_map.get(timeframe, '1h')]. *)
Definition resolve_interval (timeframe : string) : string :=
  default "1h"%string (interval_map !! timeframe).

(** [update_timeframe(timeframe)]: the new engine and the snapshots
    returned to the caller. *)
Definition update_timeframe (timeframe : string) (st : engine)
    : engine * gmap string snapshot :=
  let st' := update_all_signals (resolve_interval timeframe) st in
  (st', latest_signals st').

(** ** Vocabulary of the further properties *)

(** A recorded trade is consistent: one of the four exit reasons,
    positive prices, and a P&L that is the gross P&L of its own prices
    less the 0.2 points of fees. *)
Definition trade_ok (t : trade) : Prop :=
  In (t_reason t) ["Stop"; "Trailing"; "SMA"; "Reversal"]%string
  /\ 0 < t_entry_price t
  /\ 0 < t_exit_price t
  /\ t_pnl t
     == gross_pnl_percent (t_signal_type t) (t_entry_price t) (t_exit_price t) - 0.2.


(** The stored stop as a function of the other fields of a position. *)
Definition stop_of (p : position) : Q :=
  match stop_type p, signal p with
  | Initial, d => initial_stop d (entry_price p)
  | Trailing, BUY => highest_since_entry p * 0.98
  | Trailing, SELL => lowest_since_entry p * 1.02
  end.

(** An exit of position [e] at price [cp] with reason [why]. *)
Definition exits_with (e : position) (cp : Q) (why : string) : Prop :=
  (exists msg, stop_exit e cp = Some (why, msg))
  \/ (stop_exit e cp = None /\ (why = "SMA" \/ why = "Reversal")%string).

(** ** Basic facts *)

Lemma Qleb_le x y : Qleb x y = true <-> x <= y.
Proof. apply Qle_bool_iff. Qed.

Lemma Qleb_gt x y : Qleb x y = false <-> y < x.
Proof.
  unfold Qleb. split; intros H.
  - apply Qnot_le_lt. intros Hle. apply Qle_bool_iff in Hle. congruence.
  - destruct (Qle_bool x y) eqn:E; [|done].
    apply Qle_bool_iff in E. lra.
Qed.

Lemma Qltb_lt x y : Qltb x y = true <-> x < y.
Proof.
  unfold Qltb. rewrite negb_true_iff. apply (Qleb_gt y x).
Qed.

Lemma Qltb_ge x y : Qltb x y = false <-> y <= x.
Proof.
  unfold Qltb. rewrite negb_false_iff. apply Qle_bool_iff.
Qed.

Lemma py_max_spec a b : a <= py_max a b /\ b <= py_max a b
  /\ (py_max a b = a \/ py_max a b = b).
Proof.
  unfold py_max. destruct (Qltb a b) eqn:E.
  - apply Qltb_lt in E. repeat split; [lra | lra | by right].
  - apply Qltb_ge in E. repeat split; [lra | lra | by left].
Qed.

Lemma py_min_spec a b : py_min a b <= a /\ py_min a b <= b
  /\ (py_min a b = a \/ py_min a b = b).
Proof.
  unfold py_min. destruct (Qltb b a) eqn:E.
  - apply Qltb_lt in E. repeat split; [lra | lra | by right].
  - apply Qltb_ge in E. repeat split; [lra | lra | by left].
Qed.

(** ** Trade ledger: capacity and FIFO order *)

Lemma deque_append_length {A} n (d : list A) x :
  (length d ≤ n)%nat -> (length (deque_append n d x) = Nat.min n (S (length d)))%nat.
Proof.
  intros Hle. unfold deque_append.
  destruct (Nat.ltb_spec n (length (d ++ [x]))) as [Hlt | Hge];
    rewrite ?length_drop, length_app in *; simpl in *; lia.
Qed.

Lemma deque_fold_drop {A} n (xs : list A) :
  fold_left (deque_append n) xs [] = drop (length xs - n) xs.
Proof.
  induction xs as [| x xs IH] using rev_ind; [done |].
  rewrite fold_left_app, length_app. simpl. rewrite IH.
  unfold deque_append.
  assert (Hlen : length (drop (length xs - n) xs ++ [x]) = S (Nat.min n (length xs))).
  { rewrite length_app, length_drop. simpl. lia. }
  rewrite Hlen.
  destruct (Nat.ltb_spec n (S (Nat.min n (length xs)))) as [Hlt | Hge].
  - assert (n ≤ length xs)%nat by lia.
    destruct (decide (n = 0%nat)) as [-> | Hn].
    + rewrite Nat.sub_0_r.
      rewrite (drop_ge xs) by lia. simpl.
      rewrite drop_ge; [done | rewrite length_app; simpl; lia].
    + rewrite drop_app_le by (rewrite length_drop; lia).
      rewrite drop_drop.
      rewrite (drop_app_le xs) by lia.
      f_equal. f_equal. lia.
  - assert (length xs < n)%nat by lia.
    replace (length xs - n)%nat with 0%nat by lia.
    replace (length xs + 1 - n)%nat with 0%nat by lia.
    done.
Qed.

Lemma record_trade_history st symbol e x d p why :
  trade_history (record_trade st symbol e x d p why)
  = deque_append HISTORY_MAXLEN (trade_history st) (mk_trade symbol e x d p why).
Proof. done. Qed.

Lemma record_all_history ts st :
  trade_history (record_all ts st)
  = fold_left (deque_append HISTORY_MAXLEN) ts (trade_history st).
Proof.
  revert st. induction ts as [| t ts IH]; intros st; [done |].
  simpl. unfold record_all in IH. rewrite IH, record_trade_history.
  by destruct t.
Qed.

(** C6.  Starting from the empty ledger, after any sequence of recorded
    trades the ledger holds exactly the most recent [min 200 n] of them in
    the order recorded; recording one more trade appends it when fewer than
    200 are held and otherwise drops the oldest entry and keeps the order of
    the rest. *)
Theorem ledger_keeps_last_200 (ts : list trade) (t : trade) :
  HISTORY_MAXLEN = 200%nat
  /\ trade_history (record_all ts engine0) = drop (length ts - 200) ts
  /\ length (trade_history (record_all ts engine0)) = Nat.min 200 (length ts)
  /\ trade_history (record_all (ts ++ [t]) engine0)
     = (if (length ts <? 200)%nat
        then trade_history (record_all ts engine0) ++ [t]
        else drop 1 (trade_history (record_all ts engine0)) ++ [t]).
Proof.
  split; [done |].
  rewrite !record_all_history. cbn [trade_history engine0].
  rewrite !deque_fold_drop. change HISTORY_MAXLEN with 200%nat.
  split; [done |]. split.
  - rewrite length_drop. lia.
  - rewrite length_app. cbn [length].
    destruct (Nat.ltb_spec (length ts) 200) as [Hlt | Hge].
    + replace (length ts + 1 - 200)%nat with 0%nat by lia.
      replace (length ts - 200)%nat with 0%nat by lia. done.
    + rewrite drop_drop, drop_app_le by lia.
      f_equal. f_equal. lia.
Qed.

(** ** Performance summary *)

Lemma deque_append_nonempty {A} n (d : list A) x :
  (0 < n)%nat -> deque_append n d x <> [].
Proof.
  intros Hn. unfold deque_append.
  destruct (Nat.ltb_spec n (length (d ++ [x]))) as [Hlt | Hge];
    intros Hnil; apply (f_equal length) in Hnil;
    rewrite ?length_drop, ?length_app in *; simpl in *; lia.
Qed.

(** The metrics stored by a recording are those recomputed from the ledger
    as it is after the append. *)
Lemma record_trade_metrics st symbol e x d p why :
  let st' := record_trade st symbol e x d p why in
  exists t h, trade_history st' = t :: h
    /\ performance_metrics st'
       = update_performance_metrics (t :: h) (performance_metrics st).
Proof.
  cbn zeta. cbn [record_trade trade_history performance_metrics].
  pose proof (deque_append_nonempty HISTORY_MAXLEN (trade_history st)
                (mk_trade symbol e x d p why)) as Hne.
  destruct (deque_append _ _ _) as [| t h]; [exfalso; apply Hne; [unfold HISTORY_MAXLEN; lia | done] |].
  by exists t, h.
Qed.

(** C7.  After a trade is recorded, the summary is the one recomputed from
    the retained ledger: the win rate is the share of trades with positive
    P&L times 100, and the profit factor is the sum of the positive P&L
    over the absolute sum of the negative P&L, and 0 when there is no
    losing trade or the losses sum to zero.  For the ledger
    [+2, +1, +0.5, -1, -0.5] the win rate is 60, the total P&L is 2 and the
    profit factor is 3.5 / 1.5. *)
Theorem summary_recomputed_after_append st symbol e x d p why :
  let st' := record_trade st symbol e x d p why in
  let pnls := map t_pnl (trade_history st') in
  let wins := List.filter (fun v => Qltb 0 v) pnls in
  let losses := List.filter (fun v => Qltb v 0) pnls in
  let m := performance_metrics st' in
  let sample := map (fun v => mk_trade "BTCUSDT" 100 100 BUY v "SMA")
                  [2; 1; 0.5; -1; -0.5] in
  let ms := performance_metrics (record_all sample engine0) in
  (total_trades m = length pnls /\ winning_trades m = length wins
   /\ losing_trades m = length losses /\ total_pnl m = py_sum pnls)
  /\ win_rate m == of_nat (length wins) / of_nat (length pnls) * 100
  /\ ((losses = [] \/ py_sum losses == 0) -> profit_factor m == 0)
  /\ (losses <> [] -> ~ py_sum losses == 0 ->
      profit_factor m == py_sum wins / Qabs (py_sum losses))
  /\ (win_rate ms == 60 /\ total_pnl ms == 2 /\ profit_factor ms == 3.5 / 1.5).
Proof.
  intros st' pnls wins losses m sample ms.
  destruct (record_trade_metrics st symbol e x d p why) as (t & h & Hh & Hm).
  fold st' in Hh, Hm. subst m. rewrite Hm.
  assert (Hp : pnls = map t_pnl (t :: h)) by (unfold pnls; by rewrite Hh).
  cbn [update_performance_metrics total_trades winning_trades losing_trades
       total_pnl win_rate profit_factor].
  rewrite <- Hp. fold wins losses.
  split; [done |]. split.
  { rewrite Hp. cbn [map]. reflexivity. }
  split; [| split].
  - intros [Hnil | Hz].
    + rewrite Hnil. reflexivity.
    + destruct losses; [reflexivity |].
      apply Qeq_eq_bool in Hz. rewrite Hz. reflexivity.
  - intros Hne Hnz. destruct losses as [| l ls]; [done |].
    destruct (Qeq_bool (py_sum (l :: ls)) 0) eqn:E; [| reflexivity].
    apply Qeq_bool_eq in E. contradiction.
  - subst ms sample. repeat split; vm_compute; reflexivity.
Qed.

(** ** Breakout detection *)

Lemma new_buy_signal_iff pp cp pu cu :
  new_buy_signal pp cp (Some pu) (Some cu) = true <-> pp <= pu /\ cu < cp.
Proof.
  unfold new_buy_signal, le_nan, gt_nan.
  rewrite andb_true_iff, Qleb_le, Qltb_lt. done.
Qed.

Lemma new_sell_signal_iff pp cp pl cl :
  new_sell_signal pp cp (Some pl) (Some cl) = true <-> pl <= pp /\ cp < cl.
Proof.
  unfold new_sell_signal, ge_nan, lt_nan.
  rewrite andb_true_iff, Qleb_le, Qltb_lt. done.
Qed.

(** C9.  A buy breakout is exactly "previous close at or below the previous
    upper band and current close above the current upper band", a sell
    breakout exactly "previous close at or above the previous lower band and
    current close below the current lower band"; the pair of booleans, and
    with the same mean and engine state the whole evaluation, is the same
    for any two inputs that agree on the last two closes and band values. *)
Theorem breakout_is_two_bar_crossover
    (closes closes' : list Q) (upper upper' lower lower' : list (option Q)) :
  last_two closes = last_two closes' ->
  last_two upper = last_two upper' ->
  last_two lower = last_two lower' ->
  breakout_signals closes upper lower = breakout_signals closes' upper' lower'
  /\ (forall symbol sma st,
        bollinger_signal symbol closes upper lower sma st
        = bollinger_signal symbol closes' upper' lower' sma st)
  /\ (forall pp cp pu cu pl cl,
        iloc_neg closes 2 = Some pp -> iloc_neg closes 1 = Some cp ->
        iloc_neg upper 2 = Some (Some pu) -> iloc_neg upper 1 = Some (Some cu) ->
        iloc_neg lower 2 = Some (Some pl) -> iloc_neg lower 1 = Some (Some cl) ->
        exists buy sell,
          breakout_signals closes upper lower = Some (buy, sell)
          /\ (buy = true <-> pp <= pu /\ cu < cp)
          /\ (sell = true <-> pl <= pp /\ cp < cl)).
Proof.
  unfold last_two. intros Hc Hu Hl.
  injection Hc as Hc2 Hc1. injection Hu as Hu2 Hu1. injection Hl as Hl2 Hl1.
  split; [| split].
  - unfold breakout_signals. by rewrite Hc1, Hc2, Hu1, Hu2, Hl1, Hl2.
  - intros symbol sma st. unfold bollinger_signal.
    by rewrite Hc1, Hc2, Hu1, Hu2, Hl1, Hl2.
  - intros pp cp pu cu pl cl E1 E2 E3 E4 E5 E6.
    unfold breakout_signals. rewrite E1, E2, E3, E4, E5, E6. cbn.
    eexists _, _. split; [done |].
    split; [apply new_buy_signal_iff | apply new_sell_signal_iff].
Qed.

(** ** Bollinger bands *)

Lemma all_defined_Some (l : list Q) : all_defined (map Some l) = Some l.
Proof. induction l as [| x l IH]; [done |]. simpl. by rewrite IH. Qed.

Lemma rolling_lookup agg s w i :
  (i < length s)%nat ->
  rolling agg s w !! i
  = Some (match window_at s w i with Some vals => agg vals | None => None end).
Proof.
  intros Hi. unfold rolling.
  rewrite list_lookup_fmap, lookup_seq_lt by done. done.
Qed.

Lemma rolling_length agg s w : length (rolling agg s w) = length s.
Proof. unfold rolling. by rewrite length_map, length_seq. Qed.

(** Past the warm-up prefix the window over a NaN-free series is the last
    [w] values. *)
Lemma window_at_full (prices : list Q) w i :
  (1 ≤ w)%nat -> (w - 1 ≤ i < length prices)%nat ->
  exists vals, window_at (map Some prices) w i = Some vals /\ length vals = w.
Proof.
  intros Hw Hi. unfold window_at.
  destruct (decide (1 ≤ w ≤ i + 1)%nat) as [_ | Hn]; [| lia].
  exists (take w (drop (i + 1 - w) prices)). split.
  - rewrite <- (all_defined_Some (take w (drop (i + 1 - w) prices))).
    f_equal. change (map Some prices) with (Some <$> prices).
    by rewrite <- fmap_drop, <- fmap_take.
  - rewrite length_take, length_drop. lia.
Qed.

Lemma agg_std_nonneg vals sd : agg_std vals = Some sd -> 0 <= sd.
Proof.
  unfold agg_std. destruct (length vals <=? 1)%nat; [done |].
  intros [= <-]. apply sqrtQ_nonneg.
Qed.

Lemma rolling_std_nonneg s w i sd :
  rolling_std s w !! i = Some (Some sd) -> 0 <= sd.
Proof.
  intros H. assert (Hi : (i < length s)%nat).
  { apply lookup_lt_Some in H. unfold rolling_std in H.
    by rewrite rolling_length in H. }
  unfold rolling_std in H. rewrite rolling_lookup in H by done.
  injection H as H. destruct (window_at s w i); [| done].
  by apply agg_std_nonneg in H.
Qed.

(** Where the upper band has a value, so have the mean, the deviation and
    the lower band, and the bands are the mean plus and minus the scaled
    deviation. *)
Lemma bands_at prices len k upper sma lower i u :
  calculate_bollinger_bands prices len k = Some (upper, sma, lower) ->
  upper !! i = Some (Some u) ->
  exists m sd,
    sma !! i = Some (Some m)
    /\ rolling_std (map Some prices) len !! i = Some (Some sd)
    /\ lower !! i = Some (Some (m - sd * k))
    /\ u = m + sd * k
    /\ 0 <= sd.
Proof.
  unfold calculate_bollinger_bands.
  destruct (length prices <? len)%nat; [done |].
  intros [= <- <- <-] Hu.
  apply lookup_zip_with_Some in Hu as (a & b & Hab & Ha & Hb).
  rewrite list_lookup_fmap in Hb.
  destruct (rolling_std (map Some prices) len !! i) as [osd |] eqn:Hsd; [| done].
  injection Hb as <-.
  destruct a as [m |], osd as [sd |]; try done.
  injection Hab as ->.
  exists m, sd. repeat split; try done.
  - apply lookup_zip_with_Some. exists (Some m), (Some (sd * k)).
    repeat split; [done |]. by rewrite list_lookup_fmap, Hsd.
  - by apply rolling_std_nonneg in Hsd.
Qed.

(** C8.  On a series of at least [len] prices the bands exist; with a
    window of at least two bars they have a value at every index from
    [len - 1] on; and wherever the upper band has a value, the three lines
    are the moving average and the moving average plus and minus the
    rolling standard deviation times the multiplier, with
    lower <= average <= upper.  The program calls the function with
    [len = 20] and multiplier [1]. *)
Theorem bands_bracket_moving_average (prices : list Q) (len : nat) (k : Q) :
  0 <= k ->
  (len ≤ length prices)%nat ->
  exists upper sma lower,
    calculate_bollinger_bands prices len k = Some (upper, sma, lower)
    /\ (forall i, (2 ≤ len)%nat -> (len - 1 ≤ i < length prices)%nat ->
          exists u, upper !! i = Some (Some u))
    /\ (forall i u, upper !! i = Some (Some u) ->
          exists m sd l,
            sma !! i = Some (Some m)
            /\ rolling_std (map Some prices) len !! i = Some (Some sd)
            /\ lower !! i = Some (Some l)
            /\ u = m + sd * k /\ l = m - sd * k
            /\ l <= m /\ m <= u).
Proof.
  intros Hk Hlen.
  destruct (calculate_bollinger_bands prices len k) as [[[upper sma] lower] |] eqn:Hcalc.
  2: { unfold calculate_bollinger_bands in Hcalc.
       destruct (Nat.ltb_spec (length prices) len); [lia | done]. }
  exists upper, sma, lower. split; [done |]. split.
  - intros i Hlen2 Hi.
    pose proof Hcalc as Hc. unfold calculate_bollinger_bands in Hc.
    destruct (length prices <? len)%nat; [done |].
    injection Hc as <- _ _.
    destruct (window_at_full prices len i) as (vals & Hw & Hvl); [lia | lia |].
    assert (His : (i < length (map Some prices))%nat) by (rewrite length_map; lia).
    exists (mean vals
            + sqrtQ (py_sum (map (fun x => (x - mean vals) * (x - mean vals)) vals)
                     / of_nat (length vals - 1)) * k).
    apply lookup_zip_with_Some.
    eexists (Some (mean vals)), (Some _). split; [reflexivity |]. split.
    + unfold rolling_mean. rewrite rolling_lookup by done. by rewrite Hw.
    + rewrite list_lookup_fmap. unfold rolling_std.
      rewrite rolling_lookup by done. rewrite Hw. unfold agg_std.
      destruct (Nat.leb_spec (length vals) 1) as [Hle | _]; [lia |]. done.
  - intros i u Hu.
    destruct (bands_at _ _ _ _ _ _ _ _ Hcalc Hu) as (m & sd & Hm & Hsd & Hl & -> & Hnn).
    exists m, sd, (m - sd * k). repeat split; try done.
    + assert (0 <= sd * k) by (apply Qmult_le_0_compat; done). lra.
    + assert (0 <= sd * k) by (apply Qmult_le_0_compat; done). lra.
Qed.

(** ** Stop management of one position *)

(** [manage_stop] on a position whose extremes were just updated. *)
Lemma manage_stop_tracked e cp :
  manage_stop (track_extremes e cp) cp
  = let pnl := gross_pnl_percent (signal e) (entry_price e) cp in
    let tracked := track_extremes e cp in
    match signal e with
    | BUY =>
        let trailing_stop := py_max (highest_since_entry e) cp * 0.98 in
        if Qleb 1 pnl
        then (set_stop tracked (py_max (stop_loss e) trailing_stop) Trailing, pnl,
              if Qleb cp trailing_stop
              then Some ("Trailing", "Closed (P&L: {:.2f}%)")%string else None)
        else (set_stop tracked (entry_price e * 0.98) Initial, pnl,
              if Qleb cp (entry_price e * 0.98)
              then Some ("Stop", "Stop hit (P&L: {:.2f}%)")%string else None)
    | SELL =>
        let trailing_stop := py_min (lowest_since_entry e) cp * 1.02 in
        if Qleb 1 pnl
        then (set_stop tracked (py_min (stop_loss e) trailing_stop) Trailing, pnl,
              if Qleb trailing_stop cp
              then Some ("Trailing", "Closed (P&L: {:.2f}%)")%string else None)
        else (set_stop tracked (entry_price e * 1.02) Initial, pnl,
              if Qleb (entry_price e * 1.02) cp
              then Some ("Stop", "Stop hit (P&L: {:.2f}%)")%string else None)
    end.
Proof.
  unfold manage_stop, track_extremes at 1.
  cbn [entry_price signal highest_since_entry lowest_since_entry stop_loss stop_type].
  destruct (signal e); reflexivity.
Qed.

Lemma unrealized_gross e cp :
  unrealized e cp = gross_pnl_percent (signal e) (entry_price e) cp.
Proof.
  unfold unrealized. rewrite manage_stop_tracked. cbn zeta.
  destruct (signal e); destruct (Qleb 1 _); reflexivity.
Qed.

Ltac stop_cases e cp :=
  rewrite ?unrealized_gross;
  unfold managed, stop_exit; rewrite ?manage_stop_tracked; cbn zeta;
  destruct (signal e) eqn:?; cbn [gross_pnl_percent];
  destruct (Qleb 1 _) eqn:?;
  cbn [fst snd set_stop track_extremes entry_price signal highest_since_entry
       lowest_since_entry stop_loss stop_type initial_stop exit_reason_of].

Lemma managed_fields e cp :
  entry_price (managed e cp) = entry_price e
  /\ signal (managed e cp) = signal e
  /\ highest_since_entry (managed e cp) = py_max (highest_since_entry e) cp
  /\ lowest_since_entry (managed e cp) = py_min (lowest_since_entry e) cp.
Proof. stop_cases e cp; done. Qed.

(** The stop written by an evaluation: in profit by 1% or more, the
    tighter of the previous stop and the trailing candidate, of type
    [Trailing]; otherwise the initial stop, of type [Initial]. *)
Lemma managed_stop e cp :
  if Qleb 1 (unrealized e cp)
  then stop_type (managed e cp) = Trailing
       /\ stop_loss (managed e cp)
          = match signal e with
            | BUY => py_max (stop_loss e) (py_max (highest_since_entry e) cp * 0.98)
            | SELL => py_min (stop_loss e) (py_min (lowest_since_entry e) cp * 1.02)
            end
  else stop_type (managed e cp) = Initial
       /\ stop_loss (managed e cp) = initial_stop (signal e) (entry_price e).
Proof. stop_cases e cp; done. Qed.

(** The test the code makes for the stop exit. *)
Lemma stop_exit_test e cp :
  stop_exit e cp
  = let hit :=
      match signal e with
      | BUY => if Qleb 1 (unrealized e cp)
               then Qleb cp (py_max (highest_since_entry e) cp * 0.98)
               else Qleb cp (entry_price e * 0.98)
      | SELL => if Qleb 1 (unrealized e cp)
                then Qleb (py_min (lowest_since_entry e) cp * 1.02) cp
                else Qleb (entry_price e * 1.02) cp
      end in
    if hit
    then Some (exit_reason_of (stop_type (managed e cp)),
               match stop_type (managed e cp) with
               | Trailing => "Closed (P&L: {:.2f}%)"
               | Initial => "Stop hit (P&L: {:.2f}%)"
               end)%string
    else None.
Proof.
  stop_cases e cp; cbn zeta;
  match goal with |- context [if ?b then Some _ else None] => destruct b end; done.
Qed.

Lemma position_ok_open d cp : 0 < cp -> position_ok (open_position d cp).
Proof.
  intros Hcp. unfold position_ok, open_position, initial_stop; simpl.
  destruct d; repeat split; lra.
Qed.

Lemma position_ok_managed e cp : position_ok e -> position_ok (managed e cp).
Proof.
  intros (Hpos & Hlo & Hhi & Hstop).
  destruct (managed_fields e cp) as (He & Hs & Hh & Hl).
  pose proof (py_max_spec (highest_since_entry e) cp) as (Hm1 & Hm2 & _).
  pose proof (py_min_spec (lowest_since_entry e) cp) as (Hn1 & Hn2 & _).
  pose proof (managed_stop e cp) as Hms.
  unfold position_ok. rewrite He, Hs, Hh, Hl.
  repeat split; [done | lra | lra |].
  destruct (Qleb 1 (unrealized e cp)); destruct Hms as [_ ->];
    destruct (signal e); unfold initial_stop.
  - pose proof (py_max_spec (stop_loss e) (py_max (highest_since_entry e) cp * 0.98))
      as (_ & _ & [-> | ->]); lra.
  - pose proof (py_min_spec (stop_loss e) (py_min (lowest_since_entry e) cp * 1.02))
      as (_ & _ & [-> | ->]); lra.
  - lra.
  - lra.
Qed.

(** On a well-formed position the code's stop test is the comparison of the
    price with the stop it has just stored. *)
Lemma stop_exit_breach e cp :
  position_ok e ->
  (breaches (managed e cp) cp <->
   stop_exit e cp
   = Some (exit_reason_of (stop_type (managed e cp)),
           match stop_type (managed e cp) with
           | Trailing => "Closed (P&L: {:.2f}%)"
           | Initial => "Stop hit (P&L: {:.2f}%)"
           end)%string).
Proof.
  intros (Hpos & Hlo & Hhi & Hstop).
  rewrite stop_exit_test. cbn zeta.
  destruct (managed_fields e cp) as (He & Hs & Hh & Hl).
  pose proof (py_max_spec (highest_since_entry e) cp) as (Hm1 & Hm2 & _).
  pose proof (py_min_spec (lowest_since_entry e) cp) as (Hn1 & Hn2 & _).
  pose proof (managed_stop e cp) as Hms.
  unfold breaches. rewrite Hs.
  destruct (Qleb 1 (unrealized e cp)); destruct Hms as [_ ->];
    destruct (signal e); unfold initial_stop.
  - pose proof (py_max_spec (stop_loss e) (py_max (highest_since_entry e) cp * 0.98))
      as (_ & Hge & Hcase).
    destruct (Qleb cp _) eqn:E.
    + apply Qleb_le in E. split; [done | intros _; lra].
    + apply Qleb_gt in E. split; [| done]. intros Hb. exfalso.
      destruct Hcase as [Hc | Hc]; rewrite Hc in Hb; lra.
  - pose proof (py_min_spec (stop_loss e) (py_min (lowest_since_entry e) cp * 1.02))
      as (_ & Hge & Hcase).
    destruct (Qleb _ cp) eqn:E.
    + apply Qleb_le in E. split; [done | intros _; lra].
    + apply Qleb_gt in E. split; [| done]. intros Hb. exfalso.
      destruct Hcase as [Hc | Hc]; rewrite Hc in Hb; lra.
  - destruct (Qleb cp _) eqn:E.
    + apply Qleb_le in E. split; [done | intros _; lra].
    + apply Qleb_gt in E. split; [| done]. intros Hb. lra.
  - destruct (Qleb _ cp) eqn:E.
    + apply Qleb_le in E. split; [done | intros _; lra].
    + apply Qleb_gt in E. split; [| done]. intros Hb. lra.
Qed.

(** ** One evaluation of the state machine *)

(** The evaluation of an asset with an open position, by exit path. *)
Lemma evaluate_open symbol pp cp pu pl cu cl cs st e :
  active_trades st !! symbol = Some e ->
  evaluate symbol pp cp pu pl cu cl cs st
  = let net := unrealized e cp - TRADING_FEE * 200 in
    let close why :=
      record_trade st symbol (entry_price e) cp (signal e) net why in
    match stop_exit e cp with
    | Some (why, msg) =>
        (del_trade symbol (close why), (NEUTRAL, mk_reason msg (Some net), None))
    | None =>
        if at_sma cp cs then
          (del_trade symbol (close "SMA"%string),
           (NEUTRAL, mk_reason "Exit at SMA (P&L: {:.2f}%)" (Some net), None))
        else if opposite_signal (signal e) pp cp pu pl cu cl then
          let new_signal := if new_sell_signal pp cp pl cl then SELL else BUY in
          (put_trade symbol (open_position new_signal cp)
             (del_trade symbol (close "Reversal"%string)),
           (Sig new_signal, mk_reason "Reversed (Prev: {:.2f}%)" (Some net),
            Some (open_info new_signal cp)))
        else
          (put_trade symbol (managed e cp) st,
           (Sig (signal e),
            mk_reason (stop_kind_str (stop_type (managed e cp)) ++ " stop active") None,
            Some (mk_info (entry_price e) (py_round (unrealized e cp) 2)
                    (stop_loss (managed e cp)) (stop_type (managed e cp)) (signal e))))
    end.
Proof.
  intros He. unfold evaluate. rewrite He.
  unfold managed, unrealized, stop_exit.
  destruct (manage_stop (track_extremes e cp) cp) as [[e1 pnl] ex].
  cbn [fst snd]. cbn zeta.
  destruct ex as [[why msg] |]; [done |].
  destruct (at_sma cp cs); [done |].
  unfold opposite_signal.
  destruct (signal e); cbn [side_is_buy negb andb orb];
    rewrite ?orb_false_r; reflexivity.
Qed.

(** The evaluation of an asset without a position. *)
Lemma evaluate_flat symbol pp cp pu pl cu cl cs st :
  active_trades st !! symbol = None ->
  evaluate symbol pp cp pu pl cu cl cs st
  = if new_buy_signal pp cp pu cu then
      (put_trade symbol (open_position BUY cp) st,
       (Sig BUY, mk_reason "NEW LONG" None, Some (open_info BUY cp)))
    else if new_sell_signal pp cp pl cl then
      (put_trade symbol (open_position SELL cp) st,
       (Sig SELL, mk_reason "NEW SHORT" None, Some (open_info SELL cp)))
    else (st, (NEUTRAL, mk_reason "Between bands" None, None)).
Proof. intros He. unfold evaluate. by rewrite He. Qed.

(** With the lower band at or below the upper band, the two breakouts
    exclude each other. *)
Lemma breakouts_exclusive pp cp pu pl cu cl :
  (forall l u, cl = Some l -> cu = Some u -> l <= u) ->
  new_buy_signal pp cp pu cu = true -> new_sell_signal pp cp pl cl = false.
Proof.
  intros Hord Hbuy.
  destruct (new_sell_signal pp cp pl cl) eqn:Hsell; [| done].
  unfold new_buy_signal, new_sell_signal in *.
  apply andb_true_iff in Hbuy as [_ Hb]. apply andb_true_iff in Hsell as [_ Hs].
  destruct cu as [u |]; [| done]. destruct cl as [l |]; [| done].
  simpl in Hb, Hs. apply Qltb_lt in Hb, Hs.
  specialize (Hord l u eq_refl eq_refl). lra.
Qed.

(** What the steps of an evaluation do to the position map. *)
Lemma active_put symbol p st s :
  active_trades (put_trade symbol p st) !! s
  = if decide (symbol = s) then Some p else active_trades st !! s.
Proof. unfold put_trade, with_trades. cbn. apply lookup_insert. Qed.

Lemma active_del symbol st s :
  active_trades (del_trade symbol st) !! s
  = if decide (symbol = s) then None else active_trades st !! s.
Proof. unfold del_trade, with_trades. cbn. apply lookup_delete. Qed.

Lemma active_record st symbol e x d p why :
  active_trades (record_trade st symbol e x d p why) = active_trades st.
Proof. done. Qed.

(** After an evaluation of [symbol], every stored position is either one
    that was stored before, the evaluated one after its in-place updates,
    or a position just opened at the current price. *)
Lemma evaluate_positions symbol pp cp pu pl cu cl cs st s p :
  active_trades (evaluate symbol pp cp pu pl cu cl cs st).1 !! s = Some p ->
  (s <> symbol /\ active_trades st !! s = Some p)
  \/ (s = symbol /\ exists d, p = open_position d cp)
  \/ (s = symbol /\ exists e, active_trades st !! symbol = Some e /\ p = managed e cp).
Proof.
  destruct (active_trades st !! symbol) as [e |] eqn:He.
  - rewrite (evaluate_open _ _ _ _ _ _ _ _ _ _ He). cbn zeta.
    destruct (stop_exit e cp) as [[why msg] |]; cbn [fst].
    { rewrite active_del. case_decide; [done |]. rewrite active_record.
      intros Hs. left. split; [congruence | done]. }
    destruct (at_sma cp cs); cbn [fst].
    { rewrite active_del. case_decide; [done |]. rewrite active_record.
      intros Hs. left. split; [congruence | done]. }
    destruct (opposite_signal _ _ _ _ _ _ _); cbn [fst].
    + rewrite active_put. case_decide.
      * intros [= <-]. right. left. split; [done |]. by eexists.
      * rewrite active_del. case_decide; [done |]. rewrite active_record.
        intros H'. left. split; [congruence | done].
    + rewrite active_put. case_decide.
      * intros [= <-]. right. right. split; [done |]. by exists e.
      * intros H'. left. split; [congruence | done].
  - rewrite (evaluate_flat _ _ _ _ _ _ _ _ _ He).
    destruct (new_buy_signal pp cp pu cu); cbn [fst].
    { rewrite active_put. case_decide.
      - intros [= <-]. right. left. split; [done |]. by eexists.
      - intros H'. left. split; [congruence | done]. }
    destruct (new_sell_signal pp cp pl cl); cbn [fst].
    { rewrite active_put. case_decide.
      - intros [= <-]. right. left. split; [done |]. by eexists.
      - intros H'. left. split; [congruence | done]. }
    intros H'. left. split; [congruence | done].
Qed.

(** Every position of a reachable state is well formed. *)
Lemma reachable_positions_ok st :
  reachable st -> forall s p, active_trades st !! s = Some p -> position_ok p.
Proof.
  induction 1 as [| symbol pp cp pu pl cu cl cs st Hr IH Hcp | signals st Hr IH];
    intros s p Hp.
  - cbn in Hp. by rewrite lookup_empty in Hp.
  - apply evaluate_positions in Hp
      as [[_ Hp] | [[_ [d ->]] | [_ (e & He & ->)]]].
    + by eapply IH.
    + by apply position_ok_open.
    + apply position_ok_managed. by eapply IH.
  - by eapply IH.
Qed.

(** The reachable states cover what the program does: an evaluation by
    [fetch_asset_data], and a whole cycle, lead from reachable states to
    reachable states when the closes are positive. *)
Lemma bollinger_signal_evaluate symbol closes upper lower sma st r :
  bollinger_signal symbol closes upper lower sma st = Some r ->
  exists pp cp pu pl cu cl cs,
    iloc_neg closes 1 = Some cp
    /\ r = evaluate symbol pp cp pu pl cu cl cs st.
Proof.
  unfold bollinger_signal. intros H.
  destruct (iloc_neg closes 1) as [cp |]; [| done].
  destruct (iloc_neg closes 2) as [pp |]; [| done].
  destruct (iloc_neg upper 1) as [cu |]; [| done].
  destruct (iloc_neg lower 1) as [cl |]; [| done].
  destruct (iloc_neg sma 1) as [cs |]; [| done].
  destruct (iloc_neg upper 2) as [pu |]; [| done].
  destruct (iloc_neg lower 2) as [pl |]; [| done].
  cbn in H. injection H as <-. by exists pp, cp, pu, pl, cu, cl, cs.
Qed.

Lemma iloc_neg_elem {A} (s : list A) k x : iloc_neg s k = Some x -> x ∈ s.
Proof.
  unfold iloc_neg. destruct (decide _); [| done]. apply list_elem_of_lookup_2.
Qed.

Lemma fetch_asset_data_reachable symbol interval st :
  positive_closes -> reachable st ->
  reachable (fetch_asset_data symbol interval st).1.
Proof.
  intros Hpos Hr. unfold fetch_asset_data.
  destruct (fetch symbol interval 250%nat) as [df |] eqn:Hf; [| done].
  destruct (length df <? 50)%nat; [done |].
  destruct (calculate_bollinger_bands _ 20 1) as [[[upper sma] lower] |]; [| done].
  destruct (bollinger_signal _ _ _ _ _ _) as [[st' [[sg why] pos]] |] eqn:Hb; [| done].
  assert (Hst' : reachable st').
  { apply bollinger_signal_evaluate in Hb
      as (pp & cp & pu & pl & cu & cl & cs & Hcp & Hev).
    replace st' with (evaluate symbol pp cp pu pl cu cl cs st).1 by by rewrite <- Hev.
    apply reach_eval; [done |].
    apply iloc_neg_elem in Hcp. apply list_elem_of_fmap in Hcp as (c & -> & Hc).
    specialize (Hpos _ _ _ _ Hf). rewrite Forall_forall in Hpos. by apply Hpos. }
  destruct (iloc_neg (map c_close df) 1); [| done].
  destruct (iloc_neg (map c_close df) 2); [| done].
  destruct (iloc_neg (calculate_rsi (map c_close df) 14) 1); [| done].
  destruct (iloc_neg (calculate_atr df 14) 1); done.
Qed.

Lemma run_cycle_reachable interval assets st :
  positive_closes -> reachable st -> reachable (run_cycle interval assets st).
Proof.
  intros Hpos Hr. unfold run_cycle.
  assert (Hscan : forall sig, reachable (scan_assets interval assets st sig).1).
  { revert st Hr. induction assets as [| a assets IH]; intros st Hr sig; [done |].
    cbn [scan_assets].
    pose proof (fetch_asset_data_reachable a interval st Hpos Hr) as Hstep.
    destruct (fetch_asset_data a interval st) as [st1 snap]. by apply IH. }
  specialize (Hscan ∅).
  destruct (scan_assets interval assets st ∅) as [st' signals].
  by apply reach_publish.
Qed.

(** ** Properties of the position state machine *)

(** While the unrealized P&L is at least 1%, an evaluation never loosens
    the stored stop. *)
Lemma stop_tightens_in_profit e cp :
  1 <= unrealized e cp ->
  match signal e with
  | BUY => stop_loss e <= stop_loss (managed e cp)
  | SELL => stop_loss (managed e cp) <= stop_loss e
  end.
Proof.
  intros Hp. apply Qleb_le in Hp.
  pose proof (managed_stop e cp) as Hms. rewrite Hp in Hms.
  destruct Hms as [_ ->]. destruct (signal e).
  - apply py_max_spec.
  - apply py_min_spec.
Qed.

(** C2.  In a reachable state, when the price breaches the stop that the
    evaluation has just stored for an open position (price <= stop for a
    long, price >= stop for a short; the stored stop being the tighter of
    the previous stop and the trailing candidate when the unrealized P&L
    is at least 1%, of type Trailing, and the initial stop, of type
    Initial, otherwise), the position is closed and one trade is recorded
    whose reason is "Trailing" for a Trailing stop and "Stop" for an
    Initial one. *)
Theorem breached_stop_closes st symbol e pp cp pu pl cu cl cs :
  reachable st ->
  active_trades st !! symbol = Some e ->
  breaches (managed e cp) cp ->
  let st' := (evaluate symbol pp cp pu pl cu cl cs st).1 in
  let kind := stop_type (managed e cp) in
  (kind = Trailing <-> 1 <= unrealized e cp)
  /\ stop_loss (managed e cp)
     = (if Qleb 1 (unrealized e cp)
        then match signal e with
             | BUY => py_max (stop_loss e) (py_max (highest_since_entry e) cp * 0.98)
             | SELL => py_min (stop_loss e) (py_min (lowest_since_entry e) cp * 1.02)
             end
        else initial_stop (signal e) (entry_price e))
  /\ active_trades st' !! symbol = None
  /\ trade_history st'
     = deque_append HISTORY_MAXLEN (trade_history st)
         (mk_trade symbol (entry_price e) cp (signal e)
            (unrealized e cp - TRADING_FEE * 200)
            (match kind with Trailing => "Trailing" | Initial => "Stop" end)).
Proof.
  intros Hr He Hb st' kind.
  pose proof (reachable_positions_ok st Hr symbol e He) as Hok.
  apply (stop_exit_breach e cp Hok) in Hb.
  pose proof (managed_stop e cp) as Hms.
  split; [| split].
  - subst kind. destruct (Qleb 1 (unrealized e cp)) eqn:E; destruct Hms as [-> _].
    + apply Qleb_le in E. done.
    + apply Qleb_gt in E. split; [done | intros; lra].
  - destruct (Qleb 1 (unrealized e cp)); by destruct Hms as [_ ->].
  - subst st'. rewrite (evaluate_open _ _ _ _ _ _ _ _ _ _ He). cbn zeta.
    rewrite Hb. cbn [fst]. split.
    + rewrite active_del. by case_decide.
    + subst kind. by destruct (stop_type (managed e cp)).
Qed.

(** C3.  An evaluation of an asset without a position records no trade.
    An evaluation of an asset with an open position either leaves the
    position open (with its in-place updates) and records nothing, or
    closes it and records exactly one trade, with reason Stop, Trailing,
    SMA or Reversal, whose P&L is the gross P&L percent minus
    [TRADING_FEE * 2 * 100], which is the gross P&L minus 0.2. *)
Theorem close_records_net_pnl st symbol pp cp pu pl cu cl cs :
  let st' := (evaluate symbol pp cp pu pl cu cl cs st).1 in
  match active_trades st !! symbol with
  | None => trade_history st' = trade_history st
  | Some e =>
      let gross := gross_pnl_percent (signal e) (entry_price e) cp in
      (active_trades st' !! symbol = Some (managed e cp)
       /\ trade_history st' = trade_history st
       /\ performance_metrics st' = performance_metrics st)
      \/ (exists why net,
            In why ["Stop"; "Trailing"; "SMA"; "Reversal"]%string
            /\ trade_history st'
               = deque_append HISTORY_MAXLEN (trade_history st)
                   (mk_trade symbol (entry_price e) cp (signal e) net why)
            /\ net == gross - TRADING_FEE * 2 * 100
            /\ net == gross - 0.2
            /\ (active_trades st' !! symbol = None
                \/ (why = "Reversal"%string
                    /\ exists d, active_trades st' !! symbol = Some (open_position d cp))))
  end.
Proof.
  intros st'. destruct (active_trades st !! symbol) as [e |] eqn:He.
  - subst st'. rewrite (evaluate_open _ _ _ _ _ _ _ _ _ _ He). cbn zeta.
    rewrite unrealized_gross.
    set (gross := gross_pnl_percent (signal e) (entry_price e) cp).
    assert (Hnet : gross - TRADING_FEE * 200 == gross - TRADING_FEE * 2 * 100
                   /\ gross - TRADING_FEE * 200 == gross - 0.2).
    { unfold TRADING_FEE. clearbody gross. split; lra. }
    destruct Hnet as [Hn1 Hn2].
    pose proof (stop_exit_test e cp) as Ht. cbn zeta in Ht.
    destruct (stop_exit e cp) as [[why msg] |].
    { right. exists why, (gross - TRADING_FEE * 200). cbn [fst].
      split.
      - match type of Ht with context [if ?b then _ else _] => destruct b end;
          [| done].
        injection Ht as -> _.
        destruct (stop_type (managed e cp)); cbn; auto 6.
      - repeat split; try done. left. rewrite active_del. by case_decide. }
    destruct (at_sma cp cs).
    { right. exists "SMA"%string, (gross - TRADING_FEE * 200). cbn [fst].
      split; [cbn; auto 6 |].
      repeat split; try done. left. rewrite active_del. by case_decide. }
    destruct (opposite_signal _ _ _ _ _ _ _).
    { right. exists "Reversal"%string, (gross - TRADING_FEE * 200). cbn [fst].
      split; [cbn; auto 6 |].
      repeat split; try done. right. split; [done |].
      eexists. rewrite active_put. by case_decide. }
    left. cbn [fst]. split; [| done].
    rewrite active_put. by case_decide.
  - subst st'. rewrite (evaluate_flat _ _ _ _ _ _ _ _ _ He).
    destruct (new_buy_signal pp cp pu cu); [done |].
    by destruct (new_sell_signal pp cp pl cl).
Qed.

(** C10.  In a reachable state every open position has
    lowest_since_entry <= entry_price <= highest_since_entry.  A position
    found after an evaluation was either opened by it, with both extremes
    equal to the entry price (the current price), or is the position held
    before with the same entry, its highest replaced by the max and its
    lowest by the min with the current price, so the highest did not
    decrease and the lowest did not increase. *)
Theorem extremes_bracket_entry st symbol pp cp pu pl cu cl cs :
  reachable st ->
  (forall s e, active_trades st !! s = Some e ->
     lowest_since_entry e <= entry_price e
     /\ entry_price e <= highest_since_entry e)
  /\ (forall e',
        active_trades (evaluate symbol pp cp pu pl cu cl cs st).1 !! symbol = Some e' ->
        (entry_price e' = cp /\ highest_since_entry e' = cp
         /\ lowest_since_entry e' = cp)
        \/ (exists e,
              active_trades st !! symbol = Some e
              /\ entry_price e' = entry_price e
              /\ signal e' = signal e
              /\ highest_since_entry e' = py_max (highest_since_entry e) cp
              /\ lowest_since_entry e' = py_min (lowest_since_entry e) cp
              /\ highest_since_entry e <= highest_since_entry e'
              /\ lowest_since_entry e' <= lowest_since_entry e
              /\ lowest_since_entry e' <= entry_price e'
              /\ entry_price e' <= highest_since_entry e')).
Proof.
  intros Hr. split.
  - intros s e He.
    destruct (reachable_positions_ok st Hr s e He) as (_ & Hlo & Hhi & _). done.
  - intros e' He'.
    apply evaluate_positions in He' as [[Hne _] | [[_ [d ->]] | [_ (e & He & ->)]]].
    + done.
    + left. done.
    + right. exists e.
      destruct (reachable_positions_ok st Hr symbol e He) as (_ & Hlo & Hhi & _).
      destruct (managed_fields e cp) as (-> & -> & -> & ->).
      pose proof (py_max_spec (highest_since_entry e) cp) as (Hm1 & _ & _).
      pose proof (py_min_spec (lowest_since_entry e) cp) as (Hn1 & _ & _).
      repeat split; try done; lra.
Qed.

(** ** Reversal *)

Lemma iloc_neg_Some {A} (s : list A) k :
  (1 ≤ k ≤ length s)%nat ->
  exists x, iloc_neg s k = Some x /\ s !! (length s - k)%nat = Some x.
Proof.
  intros Hk. unfold iloc_neg. destruct (decide _) as [_ | Hn]; [| lia].
  destruct (lookup_lt_is_Some_2 s (length s - k)%nat) as [x Hx]; [lia |].
  exists x. by rewrite Hx.
Qed.

Lemma bands_lengths prices len k upper sma lower :
  calculate_bollinger_bands prices len k = Some (upper, sma, lower) ->
  length upper = length prices /\ length sma = length prices
  /\ length lower = length prices.
Proof.
  unfold calculate_bollinger_bands.
  destruct (length prices <? len)%nat; [done |].
  intros [= <- <- <-]. unfold rolling_mean, rolling_std.
  rewrite !length_zip_with, !length_map, !rolling_length, !length_map. lia.
Qed.

(** The bands the program computes do not cross. *)
Lemma bands_ordered_at prices len k upper sma lower i u l :
  0 <= k ->
  calculate_bollinger_bands prices len k = Some (upper, sma, lower) ->
  upper !! i = Some (Some u) -> lower !! i = Some (Some l) -> l <= u.
Proof.
  intros Hk Hcalc Hu Hl.
  destruct (bands_at _ _ _ _ _ _ _ _ Hcalc Hu) as (m & sd & _ & _ & Hl' & -> & Hsd).
  rewrite Hl' in Hl. injection Hl as <-.
  assert (0 <= sd * k) by (apply Qmult_le_0_compat; done). lra.
Qed.

(** C4.  On a history of at least 20 bars the program's evaluation of an
    asset returns.  If the asset has an open position that is not closed by
    the stop check or the mean-revert exit and the breakout opposite to its
    direction fires, the position is closed with a trade of reason
    "Reversal" and a position in the opposite direction is stored in the
    same evaluation, entered at the current price with an Initial stop of
    price * 0.98 for a long and price * 1.02 for a short.  On every other
    path the evaluation either closes the position without opening one, or
    closes nothing. *)
Theorem reversal_is_the_only_close_and_open symbol closes st :
  (20 ≤ length closes)%nat ->
  exists upper sma lower st' out pp cp pu pl cu cl cs,
    calculate_bollinger_bands closes 20 1 = Some (upper, sma, lower)
    /\ bollinger_signal symbol closes upper lower sma st = Some (st', out)
    /\ last_two closes = (Some pp, Some cp)
    /\ last_two upper = (Some pu, Some cu)
    /\ last_two lower = (Some pl, Some cl)
    /\ iloc_neg sma 1 = Some cs
    /\ match active_trades st !! symbol with
       | None => trade_history st' = trade_history st
       | Some e =>
           if reversal_due e pp cp pu pl cu cl cs
           then
             active_trades st' !! symbol = Some (open_position (flip (signal e)) cp)
             /\ open_position (flip (signal e)) cp
                = mk_position cp (flip (signal e)) cp cp
                    (match flip (signal e) with
                     | BUY => cp * 0.98
                     | SELL => cp * 1.02
                     end) Initial
             /\ trade_history st'
                = deque_append HISTORY_MAXLEN (trade_history st)
                    (mk_trade symbol (entry_price e) cp (signal e)
                       (unrealized e cp - TRADING_FEE * 200) "Reversal")
             /\ out.1.1 = Sig (flip (signal e))
           else
             (active_trades st' !! symbol = None
              /\ exists why,
                   In why ["Stop"; "Trailing"; "SMA"]%string
                   /\ trade_history st'
                      = deque_append HISTORY_MAXLEN (trade_history st)
                          (mk_trade symbol (entry_price e) cp (signal e)
                             (unrealized e cp - TRADING_FEE * 200) why))
             \/ (active_trades st' !! symbol = Some (managed e cp)
                 /\ trade_history st' = trade_history st)
       end.
Proof.
  intros Hlen.
  destruct (calculate_bollinger_bands closes 20 1) as [[[upper sma] lower] |] eqn:Hcalc.
  2: { unfold calculate_bollinger_bands in Hcalc.
       destruct (Nat.ltb_spec (length closes) 20); [lia | done]. }
  destruct (bands_lengths _ _ _ _ _ _ Hcalc) as (Lu & Lm & Ll).
  destruct (iloc_neg_Some closes 1) as (cp & Hcp & _); [lia |].
  destruct (iloc_neg_Some closes 2) as (pp & Hpp & _); [lia |].
  destruct (iloc_neg_Some upper 1) as (cu & Hcu & Hcu'); [lia |].
  destruct (iloc_neg_Some upper 2) as (pu & Hpu & _); [lia |].
  destruct (iloc_neg_Some lower 1) as (cl & Hcl & Hcl'); [lia |].
  destruct (iloc_neg_Some lower 2) as (pl & Hpl & _); [lia |].
  destruct (iloc_neg_Some sma 1) as (cs & Hcs & _); [lia |].
  assert (Hord : forall l u, cl = Some l -> cu = Some u -> l <= u).
  { intros l u -> ->. rewrite Lu in Hcu'. rewrite Ll in Hcl'.
    by eapply (bands_ordered_at closes 20 1). }
  exists upper, sma, lower,
    (evaluate symbol pp cp pu pl cu cl cs st).1,
    (evaluate symbol pp cp pu pl cu cl cs st).2,
    pp, cp, pu, pl, cu, cl, cs.
  split; [done |]. split.
  { unfold bollinger_signal. rewrite Hcp, Hpp, Hcu, Hcl, Hcs, Hpu, Hpl. cbn.
    by destruct (evaluate symbol pp cp pu pl cu cl cs st). }
  unfold last_two. rewrite Hcp, Hpp, Hcu, Hcl, Hpu, Hpl.
  repeat (split; [done |]).
  destruct (active_trades st !! symbol) as [e |] eqn:He.
  - rewrite (evaluate_open _ _ _ _ _ _ _ _ _ _ He). cbn zeta.
    unfold reversal_due.
    pose proof (stop_exit_test e cp) as Ht. cbn zeta in Ht.
    destruct (stop_exit e cp) as [[why msg] |].
    { left. cbn [fst]. split; [rewrite active_del; by case_decide |].
      exists why. split; [| done].
      match type of Ht with context [if ?b then _ else _] => destruct b end;
        [| done].
      injection Ht as -> _. destruct (stop_type (managed e cp)); cbn; auto 6. }
    destruct (at_sma cp cs); cbn [negb andb].
    { left. cbn [fst]. split; [rewrite active_del; by case_decide |].
      exists "SMA"%string. split; [cbn; auto 6 | done]. }
    destruct (opposite_signal (signal e) pp cp pu pl cu cl) eqn:Hopp.
    + assert (Hnew : (if new_sell_signal pp cp pl cl then SELL else BUY)
                     = flip (signal e)).
      { unfold opposite_signal in Hopp. destruct (signal e); cbn [flip].
        - by rewrite Hopp.
        - by rewrite (breakouts_exclusive pp cp pu pl cu cl Hord Hopp). }
      rewrite Hnew. cbn [fst snd].
      split; [rewrite active_put; by case_decide |].
      split; [by destruct (signal e) |]. done.
    + right. cbn [fst]. split; [rewrite active_put; by case_decide | done].
  - rewrite (evaluate_flat _ _ _ _ _ _ _ _ _ He).
    destruct (new_buy_signal pp cp pu cu); [done |].
    by destruct (new_sell_signal pp cp pl cl).
Qed.

(** ** Evaluation cycle: assets without data *)

Lemma fetch_short_history symbol interval df st :
  fetch symbol interval 250%nat = Some df -> (length df < 50)%nat ->
  fetch_asset_data symbol interval st = (st, error_snapshot symbol "No data").
Proof.
  intros Hf Hlen. unfold fetch_asset_data. rewrite Hf.
  destruct (Nat.ltb_spec (length df) 50); [done | lia].
Qed.

(** Skipping an asset without data changes neither the engine nor the
    snapshots of the other assets. *)
Lemma scan_without symbol interval df :
  fetch symbol interval 250%nat = Some df -> (length df < 50)%nat ->
  forall assets st (sig1 sig2 : gmap string snapshot),
    (forall s, s <> symbol -> sig1 !! s = sig2 !! s) ->
    (scan_assets interval assets st sig1).1
    = (scan_assets interval (filter (fun s => s <> symbol) assets) st sig2).1
    /\ forall s, s <> symbol ->
         (scan_assets interval assets st sig1).2 !! s
         = (scan_assets interval (filter (fun s => s <> symbol) assets) st sig2).2 !! s.
Proof.
  intros Hf Hlen assets.
  induction assets as [| a assets IH]; intros st sig1 sig2 Hsig; [done |].
  cbn [scan_assets]. destruct (decide (a = symbol)) as [-> | Hne].
  - rewrite filter_cons_False by (intros Hn; by apply Hn).
    rewrite (fetch_short_history _ _ _ _ Hf Hlen).
    apply IH. intros s Hs. rewrite lookup_insert_ne by done. by apply Hsig.
  - rewrite filter_cons_True by done. cbn [scan_assets].
    destruct (fetch_asset_data a interval st) as [st1 snap].
    apply IH. intros s Hs.
    destruct (decide (a = s)) as [-> | Has].
    + by rewrite !lookup_insert_eq.
    + rewrite !lookup_insert_ne by done. by apply Hsig.
Qed.

Lemma scan_reports_error symbol interval df :
  fetch symbol interval 250%nat = Some df -> (length df < 50)%nat ->
  forall assets st (sig : gmap string snapshot),
    (scan_assets interval assets st sig).2 !! symbol
    = if decide (symbol ∈ assets)
      then Some (error_snapshot symbol "No data")
      else sig !! symbol.
Proof.
  intros Hf Hlen assets.
  induction assets as [| a assets IH]; intros st sig.
  - cbn. case_decide as Hin; [by apply elem_of_nil in Hin | done].
  - cbn [scan_assets]. destruct (decide (a = symbol)) as [-> | Hne].
    + rewrite (fetch_short_history _ _ _ _ Hf Hlen). rewrite IH.
      rewrite lookup_insert_eq.
      destruct (decide (symbol ∈ assets)); destruct (decide (symbol ∈ symbol :: assets)) as [| Hn];
        try done; exfalso; apply Hn; apply elem_of_cons; by left.
    + destruct (fetch_asset_data a interval st) as [st1 snap]. rewrite IH.
      rewrite lookup_insert_ne by done.
      destruct (decide (symbol ∈ assets)) as [Hin | Hnin];
        destruct (decide (symbol ∈ a :: assets)) as [Hin' | Hnin']; try done.
      * exfalso. apply Hnin'. apply elem_of_cons. by right.
      * apply elem_of_cons in Hin' as [-> | Hin']; done.
Qed.

(** C5.  For an asset whose fetched history has fewer than 50 candles, the
    evaluation returns the engine as it was (positions, ledger and summary
    untouched) with a snapshot of signal ERROR and reason "No data"; and a
    cycle over any list of assets ends in the same positions, ledger and
    summary, and the same snapshots of all other assets, as the cycle that
    leaves this asset out. *)
Theorem short_history_reports_error symbol interval df :
  fetch symbol interval 250%nat = Some df ->
  (length df < 50)%nat ->
  (forall st,
     fetch_asset_data symbol interval st = (st, error_snapshot symbol "No data"))
  /\ s_signal (error_snapshot symbol "No data") = ERROR
  /\ s_reason (error_snapshot symbol "No data") = mk_reason "No data" None
  /\ (forall assets st,
        let r := run_cycle interval assets st in
        let r' := run_cycle interval (filter (fun s => s <> symbol) assets) st in
        active_trades r = active_trades r'
        /\ trade_history r = trade_history r'
        /\ performance_metrics r = performance_metrics r'
        /\ (forall s, s <> symbol -> latest_signals r !! s = latest_signals r' !! s)
        /\ (symbol ∈ assets ->
            latest_signals r !! symbol = Some (error_snapshot symbol "No data"))).
Proof.
  intros Hf Hlen.
  split; [intros st; by apply (fetch_short_history _ _ df) |].
  split; [done |]. split; [done |].
  intros assets st r r'. subst r r'. unfold run_cycle.
  destruct (scan_without symbol interval df Hf Hlen assets st ∅ ∅) as [Hst Hsig]; [done |].
  pose proof (scan_reports_error symbol interval df Hf Hlen assets st ∅) as Herr.
  destruct (scan_assets interval assets st ∅) as [st1 sig1].
  destruct (scan_assets interval (filter (fun s => s <> symbol) assets) st ∅)
    as [st2 sig2].
  cbn [fst snd] in *. subst st2.
  cbn [active_trades trade_history performance_metrics latest_signals].
  repeat split; try done.
  intros Hin. rewrite Herr. by destruct (decide (symbol ∈ assets)).
Qed.

(** ** The stop of a position across evaluations *)

(** C1 (how the code behaves).  Three evaluations of one asset: a long
    opens at 100; at 105 the stop trails to 102.9; at 100.5 the unrealized
    P&L is below 1% and the same, still open, long position has its stored
    stop written back to 98. *)
Theorem stop_written_back_to_initial :
  let s := "BTCUSDT"%string in
  let st1 := (evaluate s 99 100 (Some 99.8) (Some 96) (Some 99.5) (Some 96.5)
                (Some 98) engine0).1 in
  let st2 := (evaluate s 100 105 (Some 99.5) (Some 96.5) (Some 103) (Some 97)
                (Some 100) st1).1 in
  let st3 := (evaluate s 105 100.5 (Some 103) (Some 97) (Some 103.5) (Some 97.5)
                (Some 99.5) st2).1 in
  reachable st3
  /\ exists p1 p2 p3,
       active_trades st1 !! s = Some p1
       /\ active_trades st2 !! s = Some p2
       /\ active_trades st3 !! s = Some p3
       /\ signal p1 = BUY /\ signal p2 = BUY /\ signal p3 = BUY
       /\ entry_price p1 == 100 /\ entry_price p2 == 100 /\ entry_price p3 == 100
       /\ stop_loss p1 == 98 /\ stop_type p1 = Initial
       /\ stop_loss p2 == 102.9 /\ stop_type p2 = Trailing
       /\ stop_loss p3 == 98 /\ stop_type p3 = Initial
       /\ stop_loss p3 < stop_loss p2
       /\ trade_history st3 = [].
Proof.
  intros s st1 st2 st3. split.
  - subst st3 st2 st1. repeat (apply reach_eval; [| reflexivity]).
    apply reach_start.
  - subst st3 st2 st1 s. vm_compute.
    eexists _, _, _. repeat split; try reflexivity; discriminate.
Qed.

(** ** Further properties of the state machine *)

(** What an evaluation does to the ledger and the summary: nothing, or one
    recording of the exit of the position held. *)
Lemma evaluate_ledger symbol pp cp pu pl cu cl cs st :
  let st' := (evaluate symbol pp cp pu pl cu cl cs st).1 in
  (trade_history st' = trade_history st
   /\ performance_metrics st' = performance_metrics st)
  \/ (exists e why,
        active_trades st !! symbol = Some e
        /\ exits_with e cp why
        /\ let booked := record_trade st symbol (entry_price e) cp (signal e)
                           (unrealized e cp - TRADING_FEE * 200) why in
           trade_history st' = trade_history booked
           /\ performance_metrics st' = performance_metrics booked).
Proof.
  intros st'. subst st'.
  destruct (active_trades st !! symbol) as [e |] eqn:He.
  - rewrite (evaluate_open _ _ _ _ _ _ _ _ _ _ He). cbn zeta.
    destruct (stop_exit e cp) as [[why msg] |] eqn:Hx.
    { right. exists e, why. split; [done |]. split; [left; by exists msg | done]. }
    destruct (at_sma cp cs).
    { right. exists e, "SMA"%string. split; [done |].
      split; [right; by split; [| left] | done]. }
    destruct (opposite_signal _ _ _ _ _ _ _).
    { right. exists e, "Reversal"%string. split; [done |].
      split; [right; by split; [| right] | done]. }
    by left.
  - left. rewrite (evaluate_flat _ _ _ _ _ _ _ _ _ He).
    destruct (new_buy_signal pp cp pu cu); [done |].
    by destruct (new_sell_signal pp cp pl cl).
Qed.

Lemma Forall_deque_append {A} (P : A -> Prop) n d x :
  Forall P d -> P x -> Forall P (deque_append n d x).
Proof.
  intros Hd Hx. unfold deque_append.
  assert (Forall P (d ++ [x])) by (apply Forall_app; split; [done | by constructor]).
  destruct (n <? length (d ++ [x]))%nat; [by apply Forall_drop | done].
Qed.

(** A property of every exit that can be recorded holds of every trade in
    the ledger of a reachable state. *)
Lemma ledger_invariant (P : trade -> Prop) :
  (forall symbol e cp why,
     position_ok e -> 0 < cp -> exits_with e cp why ->
     P (mk_trade symbol (entry_price e) cp (signal e)
          (unrealized e cp - TRADING_FEE * 200) why)) ->
  forall st, reachable st -> Forall P (trade_history st).
Proof.
  intros HP st Hr.
  induction Hr as [| symbol pp cp pu pl cu cl cs st Hr IH Hcp | signals st Hr IH].
  - constructor.
  - destruct (evaluate_ledger symbol pp cp pu pl cu cl cs st)
      as [[-> _] | (e & why & He & Hx & Hh & _)]; [done |].
    rewrite Hh, record_trade_history.
    apply Forall_deque_append; [done |].
    apply HP; [by eapply reachable_positions_ok | done | done].
  - done.
Qed.

(** The exit reasons. *)
Lemma exits_with_reason e cp why :
  exits_with e cp why ->
  (why = "SMA" \/ why = "Reversal")%string
  \/ (why = exit_reason_of (stop_type (managed e cp))
      /\ stop_exit e cp <> None).
Proof.
  intros [[msg Hx] | [_ Hw]]; [| by left].
  right. pose proof (stop_exit_test e cp) as Ht. cbn zeta in Ht.
  rewrite Hx in Ht.
  match type of Ht with context [if ?b then _ else _] => destruct b end; [| done].
  injection Ht as -> _. split; [done |]. by rewrite Hx.
Qed.

(** X1.  In every reachable state each trade in the ledger carries one of
    the four exit reasons, positive entry and exit prices, and a P&L equal
    to the gross P&L percent of its own entry price, exit price and
    direction, less 0.2. *)
Theorem ledger_trades_consistent st :
  reachable st -> Forall trade_ok (trade_history st).
Proof.
  apply ledger_invariant. intros symbol e cp why (Hpos & _) Hcp Hx.
  unfold trade_ok. cbn [t_reason t_entry_price t_exit_price t_signal_type t_pnl].
  split; [| split; [done | split; [done |]]].
  - destruct (exits_with_reason e cp why Hx) as [[-> | ->] | [-> _]];
      [cbn; auto 6 | cbn; auto 6 |].
    destruct (stop_type (managed e cp)); cbn; auto 6.
  - rewrite unrealized_gross. unfold TRADING_FEE.
    generalize (gross_pnl_percent (signal e) (entry_price e) cp). intros g. lra.
Qed.



(** A property of freshly opened positions that the in-place updates keep
    holds of every position of a reachable state. *)
Lemma positions_invariant (P : position -> Prop) :
  (forall d cp, 0 < cp -> P (open_position d cp)) ->
  (forall e cp, position_ok e -> P e -> P (managed e cp)) ->
  forall st, reachable st ->
  forall s p, active_trades st !! s = Some p -> P p.
Proof.
  intros Hopen Hkeep st Hr.
  induction Hr as [| symbol pp cp pu pl cu cl cs st Hr IH Hcp | signals st Hr IH];
    intros s p Hp.
  - cbn in Hp. by rewrite lookup_empty in Hp.
  - apply evaluate_positions in Hp
      as [[_ Hp] | [[_ [d ->]] | [_ (e & He & ->)]]].
    + by eapply IH.
    + by apply Hopen.
    + apply Hkeep; [by eapply reachable_positions_ok | by eapply IH].
  - by eapply IH.
Qed.

(** X3.  In every reachable state the stored stop of a position is
    determined by its other fields: the initial stop (entry * 0.98 for a
    long, entry * 1.02 for a short) when the stop type is Initial, and the
    trailing level (highest * 0.98, lowest * 1.02) when it is Trailing; so
    a long's stop lies between entry * 0.98 and highest * 0.98 and a
    short's between lowest * 1.02 and entry * 1.02. *)
Theorem stored_stop_determined st s p :
  reachable st ->
  active_trades st !! s = Some p ->
  stop_loss p == stop_of p
  /\ match signal p with
     | BUY => entry_price p * 0.98 <= stop_loss p
              /\ stop_loss p <= highest_since_entry p * 0.98
     | SELL => lowest_since_entry p * 1.02 <= stop_loss p
               /\ stop_loss p <= entry_price p * 1.02
     end.
Proof.
  intros Hr Hp.
  assert (Hdet : stop_loss p == stop_of p).
  { revert st Hr s p Hp. apply positions_invariant.
    - intros d cp _. unfold stop_of, open_position. cbn. reflexivity.
    - intros e cp (_ & Hlo & Hhi & Hstop) _.
      destruct (managed_fields e cp) as (He & Hs & Hh & Hl).
      pose proof (py_max_spec (highest_since_entry e) cp) as (Hm1 & _ & _).
      pose proof (py_min_spec (lowest_since_entry e) cp) as (Hn1 & _ & _).
      pose proof (managed_stop e cp) as Hms.
      unfold stop_of. rewrite He, Hs, Hh, Hl.
      destruct (Qleb 1 (unrealized e cp)); destruct Hms as [-> ->];
        [| reflexivity].
      destruct (signal e); cbn iota in Hstop.
      + pose proof (py_max_spec (stop_loss e) (py_max (highest_since_entry e) cp * 0.98))
          as (_ & Hge & [Hc | Hc]); rewrite Hc in *; [lra | reflexivity].
      + pose proof (py_min_spec (stop_loss e) (py_min (lowest_since_entry e) cp * 1.02))
          as (_ & Hge & [Hc | Hc]); rewrite Hc in *; [lra | reflexivity]. }
  split; [done |].
  destruct (reachable_positions_ok st Hr s p Hp) as (_ & Hlo & Hhi & Hstop).
  unfold stop_of, initial_stop in Hdet.
  destruct (signal p), (stop_type p); cbn iota in *; lra.
Qed.

(** ** Further properties of the ledger and the summary *)

(** With two trades or more in the ledger, the recomputation ignores the
    previous summary. *)
Lemma summary_ignores_previous h pm pm' :
  (2 ≤ length h)%nat ->
  update_performance_metrics h pm = update_performance_metrics h pm'.
Proof.
  intros Hlen. destruct h as [| a [| b r]]; cbn in Hlen; [lia | lia |].
  reflexivity.
Qed.

Lemma deque_append_grows {A} (d : list A) x :
  d <> [] -> (length d ≤ HISTORY_MAXLEN)%nat ->
  (2 ≤ length (deque_append HISTORY_MAXLEN d x))%nat.
Proof.
  intros Hne Hle. rewrite deque_append_length by done.
  destruct d; [done |]. unfold HISTORY_MAXLEN. cbn [length]. lia.
Qed.

(** X4.  In every reachable state the ledger holds at most 200 trades and
    the performance summary is the one recomputed from the ledger alone,
    starting from the all-zero summary: it carries nothing over from
    trades that have left the ledger. *)
Theorem summary_is_function_of_ledger st :
  reachable st ->
  (length (trade_history st) ≤ 200)%nat
  /\ performance_metrics st
     = update_performance_metrics (trade_history st) metrics0.
Proof.
  induction 1 as [| symbol pp cp pu pl cu cl cs st Hr [IHl IHm] Hcp
                  | signals st Hr IH].
  - split; [cbn; lia | done].
  - destruct (evaluate_ledger symbol pp cp pu pl cu cl cs st)
      as [[-> ->] | (e & why & He & Hx & Hh & Hm)]; [done |].
    rewrite Hh, Hm. cbn [record_trade trade_history performance_metrics].
    set (t := mk_trade _ _ _ _ _ _). split.
    + rewrite deque_append_length by (unfold HISTORY_MAXLEN; lia).
      unfold HISTORY_MAXLEN. lia.
    + destruct (trade_history st) as [| a h] eqn:Eh.
      * rewrite IHm. done.
      * apply summary_ignores_previous.
        apply deque_append_grows; [done | unfold HISTORY_MAXLEN; lia].
  - done.
Qed.

Lemma py_sum_from acc xs : fold_left Qplus xs acc == acc + py_sum xs.
Proof.
  unfold py_sum. revert acc. induction xs as [| x xs IH]; intros acc; cbn.
  - lra.
  - rewrite IH, (IH (0 + x)). lra.
Qed.

Lemma py_sum_cons x xs : py_sum (x :: xs) == x + py_sum xs.
Proof. unfold py_sum at 1. cbn. rewrite py_sum_from. lra. Qed.

Lemma py_sum_nonneg xs : Forall (fun x => 0 <= x) xs -> 0 <= py_sum xs.
Proof.
  induction 1 as [| x xs Hx _ IH]; [unfold py_sum; cbn; lra |].
  rewrite py_sum_cons. lra.
Qed.

Lemma py_sum_nonpos xs : Forall (fun x => x <= 0) xs -> py_sum xs <= 0.
Proof.
  induction 1 as [| x xs Hx _ IH]; [unfold py_sum; cbn; lra |].
  rewrite py_sum_cons. lra.
Qed.


Lemma of_nat_nonneg n : 0 <= of_nat n.
Proof.
  unfold of_nat. change 0 with (inject_Z 0). rewrite <- Zle_Qle. lia.
Qed.

Lemma of_nat_pos n : (0 < n)%nat -> 0 < of_nat n.
Proof.
  intros. unfold of_nat. change 0 with (inject_Z 0). rewrite <- Zlt_Qlt. lia.
Qed.

Lemma of_nat_le n m : (n ≤ m)%nat -> of_nat n <= of_nat m.
Proof. intros. unfold of_nat. rewrite <- Zle_Qle. lia. Qed.

Lemma Qdiv_nonneg a b : 0 <= a -> 0 <= b -> 0 <= a / b.
Proof.
  intros Ha Hb. destruct (Qeq_dec b 0) as [Hz | Hnz].
  - unfold Qdiv. rewrite Hz. unfold Qinv. cbn. lra.
  - apply Qle_shift_div_l; lra.
Qed.

Lemma filter_Forall_pos (xs : list Q) :
  Forall (fun x => 0 < x) (List.filter (fun p => Qltb 0 p) xs).
Proof.
  apply List.Forall_forall. intros x Hx. apply List.filter_In in Hx as [_ Hx].
  by apply Qltb_lt in Hx.
Qed.

Lemma filter_Forall_neg (xs : list Q) :
  Forall (fun x => x < 0) (List.filter (fun p => Qltb p 0) xs).
Proof.
  apply List.Forall_forall. intros x Hx. apply List.filter_In in Hx as [_ Hx].
  by apply Qltb_lt in Hx.
Qed.

Lemma filter_length_le (f : Q -> bool) xs : (length (List.filter f xs) ≤ length xs)%nat.
Proof. induction xs as [| x xs IH]; cbn; [lia |]. destruct (f x); cbn; lia. Qed.

Lemma wins_losses_disjoint xs :
  (length (List.filter (fun p => Qltb 0 p) xs)
   + length (List.filter (fun p => Qltb p 0) xs) ≤ length xs)%nat.
Proof.
  induction xs as [| x xs IH]; cbn; [lia |].
  destruct (Qltb 0 x) eqn:E1, (Qltb x 0) eqn:E2; cbn; try lia.
  apply Qltb_lt in E1, E2. lra.
Qed.

Lemma fold_py_max_ge r acc : acc <= fold_left py_max r acc.
Proof.
  revert acc. induction r as [| x r IH]; intros acc; cbn; [lra |].
  pose proof (py_max_spec acc x) as (H1 & _ & _).
  specialize (IH (py_max acc x)). lra.
Qed.

(** X5.  The summary stored by a recording is within its natural bounds:
    wins and losses together do not exceed the number of trades, the win
    rate lies between 0 and 100, the average win and the profit factor are
    not negative, the average loss is not positive, and the maximum
    drawdown is not negative. *)
Theorem summary_within_bounds st symbol e x d p why :
  let m := performance_metrics (record_trade st symbol e x d p why) in
  (winning_trades m + losing_trades m ≤ total_trades m)%nat
  /\ (1 ≤ total_trades m)%nat
  /\ 0 <= win_rate m /\ win_rate m <= 100
  /\ 0 <= avg_win m
  /\ avg_loss m <= 0
  /\ 0 <= profit_factor m
  /\ 0 <= max_drawdown m.
Proof.
  intros m. subst m.
  destruct (record_trade_metrics st symbol e x d p why) as (t & h & _ & ->).
  cbn [update_performance_metrics total_trades winning_trades losing_trades
       win_rate avg_win avg_loss profit_factor max_drawdown].
  cbn [map]. set (a := t_pnl t). set (r := map t_pnl h).
  set (wins := List.filter (fun p => Qltb 0 p) (a :: r)).
  set (losses := List.filter (fun p => Qltb p 0) (a :: r)).
  assert (Hw : Forall (fun x => 0 < x) wins) by apply filter_Forall_pos.
  assert (Hl : Forall (fun x => x < 0) losses) by apply filter_Forall_neg.
  assert (Hws : 0 <= py_sum wins).
  { apply py_sum_nonneg. eapply Forall_impl; [exact Hw |]. intros; cbn in *; lra. }
  assert (Hls : py_sum losses <= 0).
  { apply py_sum_nonpos. eapply Forall_impl; [exact Hl |]. intros; cbn in *; lra. }
  split; [apply wins_losses_disjoint |]. split; [cbn; lia |].
  assert (Hrate : 0 <= of_nat (length wins) / of_nat (length (a :: r))
                  /\ of_nat (length wins) / of_nat (length (a :: r)) <= 1).
  { split; [apply Qdiv_nonneg; apply of_nat_nonneg |].
    apply Qle_shift_div_r; [apply of_nat_pos; cbn; lia |].
    rewrite Qmult_1_l. apply of_nat_le, filter_length_le. }
  split; [lra |]. split; [lra |].
  split.
  { destruct wins eqn:Ew; [lra |]. rewrite <- Ew in *.
    apply Qdiv_nonneg; [done | apply of_nat_nonneg]. }
  split.
  { destruct losses eqn:El; [lra |]. rewrite <- El in *.
    apply Qle_shift_div_r; [apply of_nat_pos; rewrite El; cbn; lia | lra]. }
  split.
  { destruct losses eqn:El; [lra |]. rewrite <- El in *.
    destruct (Qeq_bool (py_sum losses) 0); [lra |].
    apply Qdiv_nonneg; [done | apply Qabs_nonneg]. }
  cbn [np_cumsum maximum_accumulate zip_with length Nat.ltb Nat.leb np_max].
  pose proof (fold_py_max_ge
    (zip_with Qminus (runmax_from a (cumsum_from a r)) (cumsum_from a r))
    (a - a)) as Hge.
  lra.
Qed.

(** X6.  The trades endpoint returns a suffix of the ledger of at most 50
    trades, in ledger order; after any sequence of recordings from the
    empty ledger it is exactly the last [min 50 n] recorded trades. *)
Theorem get_trades_last_50 (st : engine) (ts : list trade) :
  (length (get_trades st) = Nat.min 50 (length (trade_history st))
   /\ trade_history st
      = take (length (trade_history st) - 50) (trade_history st) ++ get_trades st)
  /\ get_trades (record_all ts engine0) = drop (length ts - 50) ts.
Proof.
  unfold get_trades. split; [split |].
  - rewrite length_drop. lia.
  - by rewrite take_drop.
  - rewrite record_all_history. cbn [trade_history engine0].
    rewrite deque_fold_drop, length_drop, drop_drop.
    unfold HISTORY_MAXLEN. f_equal. lia.
Qed.

(** ** Further properties of one evaluation *)

(** X7.  What an evaluation reports agrees with what it stores: it reports
    no position exactly when the asset has none afterwards, with signal
    NEUTRAL; otherwise the reported entry price, stop, stop type and
    direction are those of the stored position, and the signal is its
    direction.  The signal is never ERROR. *)
Theorem report_matches_position symbol pp cp pu pl cu cl cs st :
  let r := evaluate symbol pp cp pu pl cu cl cs st in
  let sig := r.2.1.1 in
  sig <> ERROR
  /\ match r.2.2 with
     | None => active_trades r.1 !! symbol = None /\ sig = NEUTRAL
     | Some info =>
         exists p,
           active_trades r.1 !! symbol = Some p
           /\ pi_entry_price info = entry_price p
           /\ pi_current_stop info = stop_loss p
           /\ pi_stop_type info = stop_type p
           /\ pi_position_type info = signal p
           /\ sig = Sig (signal p)
     end.
Proof.
  intros r sig. subst sig r.
  destruct (active_trades st !! symbol) as [e |] eqn:He.
  - rewrite (evaluate_open _ _ _ _ _ _ _ _ _ _ He). cbn zeta.
    destruct (stop_exit e cp) as [[why msg] |]; cbn [fst snd].
    { split; [done |]. split; [| done]. rewrite active_del. by case_decide. }
    destruct (at_sma cp cs); cbn [fst snd].
    { split; [done |]. split; [| done]. rewrite active_del. by case_decide. }
    destruct (opposite_signal _ _ _ _ _ _ _); cbn [fst snd].
    + split; [done |]. eexists. rewrite active_put.
      split; [by case_decide |]. done.
    + split; [done |]. exists (managed e cp). rewrite active_put.
      split; [by case_decide |].
      destruct (managed_fields e cp) as (-> & -> & _). done.
  - rewrite (evaluate_flat _ _ _ _ _ _ _ _ _ He).
    destruct (new_buy_signal pp cp pu cu); cbn [fst snd].
    { split; [done |]. eexists. rewrite active_put. split; [by case_decide | done]. }
    destruct (new_sell_signal pp cp pl cl); cbn [fst snd].
    { split; [done |]. eexists. rewrite active_put. split; [by case_decide | done]. }
    done.
Qed.

(** X8.  An evaluation of one asset leaves the positions of all other
    assets and the published snapshots as they were. *)
Theorem evaluation_is_local symbol pp cp pu pl cu cl cs st :
  let st' := (evaluate symbol pp cp pu pl cu cl cs st).1 in
  delete symbol (active_trades st') = delete symbol (active_trades st)
  /\ latest_signals st' = latest_signals st.
Proof.
  intros st'. subst st'.
  assert (Hput : forall p s0,
            delete symbol (active_trades (put_trade symbol p s0))
            = delete symbol (active_trades s0)).
  { intros. unfold put_trade, with_trades. cbn. apply delete_insert_eq. }
  assert (Hdel : forall s0,
            delete symbol (active_trades (del_trade symbol s0))
            = delete symbol (active_trades s0)).
  { intros. unfold del_trade, with_trades. cbn. apply delete_delete_eq. }
  destruct (active_trades st !! symbol) as [e |] eqn:He.
  - rewrite (evaluate_open _ _ _ _ _ _ _ _ _ _ He). cbn zeta.
    destruct (stop_exit e cp) as [[why msg] |]; cbn [fst].
    { by rewrite Hdel. }
    destruct (at_sma cp cs); cbn [fst]; [by rewrite Hdel |].
    destruct (opposite_signal _ _ _ _ _ _ _); cbn [fst].
    + by rewrite Hput, Hdel.
    + by rewrite Hput.
  - rewrite (evaluate_flat _ _ _ _ _ _ _ _ _ He).
    destruct (new_buy_signal pp cp pu cu); cbn [fst]; [by rewrite Hput |].
    destruct (new_sell_signal pp cp pl cl); cbn [fst]; [by rewrite Hput | done].
Qed.

(** X9.  An open position never survives an evaluation at which the price
    is within 0.2% of the moving average: it is closed, by its stop if that
    fires and with reason SMA otherwise, whatever the breakout signals, and
    no position is opened in its place. *)
Theorem near_mean_always_closes symbol pp cp pu pl cu cl cs st e :
  active_trades st !! symbol = Some e ->
  at_sma cp cs = true ->
  let r := evaluate symbol pp cp pu pl cu cl cs st in
  active_trades r.1 !! symbol = None
  /\ r.2.1.1 = NEUTRAL
  /\ exists why,
       (why = "SMA"%string \/ why = exit_reason_of (stop_type (managed e cp)))
       /\ (why = "SMA"%string <-> stop_exit e cp = None)
       /\ trade_history r.1
          = deque_append HISTORY_MAXLEN (trade_history st)
              (mk_trade symbol (entry_price e) cp (signal e)
                 (unrealized e cp - TRADING_FEE * 200) why).
Proof.
  intros He Hnear r. subst r.
  rewrite (evaluate_open _ _ _ _ _ _ _ _ _ _ He). cbn zeta. rewrite Hnear.
  pose proof (stop_exit_test e cp) as Ht. cbn zeta in Ht.
  destruct (stop_exit e cp) as [[why msg] |]; cbn [fst snd].
  - split; [rewrite active_del; by case_decide |]. split; [done |].
    exists why.
    match type of Ht with context [if ?b then _ else _] => destruct b end; [| done].
    injection Ht as -> _. split; [by right |]. split; [| done].
    split; [| done]. by destruct (stop_type (managed e cp)).
  - split; [rewrite active_del; by case_decide |]. split; [done |].
    exists "SMA"%string. split; [by left |]. done.
Qed.

(** ** Further properties of the evaluation cycle *)

Lemma evaluate_never_error symbol pp cp pu pl cu cl cs st :
  (evaluate symbol pp cp pu pl cu cl cs st).2.1.1 <> ERROR.
Proof.
  destruct (active_trades st !! symbol) as [e |] eqn:He.
  - rewrite (evaluate_open _ _ _ _ _ _ _ _ _ _ He). cbn zeta.
    destruct (stop_exit e cp) as [[why msg] |]; [done |].
    destruct (at_sma cp cs); [done |].
    by destruct (opposite_signal _ _ _ _ _ _ _).
  - rewrite (evaluate_flat _ _ _ _ _ _ _ _ _ He).
    destruct (new_buy_signal pp cp pu cu); [done |].
    by destruct (new_sell_signal pp cp pl cl).
Qed.

Lemma shift_length (s : list Q) : length (shift s) = length s.
Proof. unfold shift. rewrite length_take. cbn. rewrite length_map. lia. Qed.

Lemma calculate_rsi_length prices period :
  length (calculate_rsi prices period) = length prices.
Proof.
  unfold calculate_rsi, rolling_mean, diff.
  rewrite length_map, length_zip_with, !rolling_length, !length_map,
    length_zip_with, shift_length. lia.
Qed.

Lemma calculate_atr_length df period :
  length (calculate_atr df period) = length df.
Proof.
  unfold calculate_atr, rolling_mean.
  rewrite rolling_length, length_zip_with, shift_length, length_map. lia.
Qed.

(** With at least 50 candles the evaluation of an asset goes through: its
    result is that of the state machine on the last two bars. *)
Lemma fetch_enough_history symbol interval df st :
  fetch symbol interval 250%nat = Some df -> (50 ≤ length df)%nat ->
  exists pp cp pu pl cu cl cs snap,
    fetch_asset_data symbol interval st
    = ((evaluate symbol pp cp pu pl cu cl cs st).1, snap)
    /\ last_two (map c_close df) = (Some pp, Some cp)
    /\ s_symbol snap = display_symbol symbol
    /\ (s_signal snap, s_reason snap, s_position snap)
       = (evaluate symbol pp cp pu pl cu cl cs st).2
    /\ s_price snap = py_round cp 8
    /\ exists last_rsi last_atr,
         iloc_neg (calculate_rsi (map c_close df) 14) 1 = Some last_rsi
         /\ iloc_neg (calculate_atr df 14) 1 = Some last_atr
         /\ s_rsi snap = match last_rsi with Some v => py_round v 2 | None => 50 end
         /\ s_atr snap = match last_atr with Some v => py_round v 4 | None => 0 end.
Proof.
  intros Hf Hlen. unfold fetch_asset_data. rewrite Hf.
  destruct (Nat.ltb_spec (length df) 50) as [| _]; [lia |].
  set (closes := map c_close df).
  assert (Lc : length closes = length df) by (unfold closes; by rewrite length_map).
  destruct (calculate_bollinger_bands closes 20 1) as [[[upper sma] lower] |] eqn:Hcalc.
  2: { unfold calculate_bollinger_bands in Hcalc.
       destruct (Nat.ltb_spec (length closes) 20); [lia | done]. }
  destruct (bands_lengths _ _ _ _ _ _ Hcalc) as (Lu & Lm & Ll).
  destruct (iloc_neg_Some closes 1) as (cp & Hcp & _); [lia |].
  destruct (iloc_neg_Some closes 2) as (pp & Hpp & _); [lia |].
  destruct (iloc_neg_Some upper 1) as (cu & Hcu & _); [lia |].
  destruct (iloc_neg_Some upper 2) as (pu & Hpu & _); [lia |].
  destruct (iloc_neg_Some lower 1) as (cl & Hcl & _); [lia |].
  destruct (iloc_neg_Some lower 2) as (pl & Hpl & _); [lia |].
  destruct (iloc_neg_Some sma 1) as (cs & Hcs & _); [lia |].
  destruct (iloc_neg_Some (calculate_rsi closes 14) 1) as (lr & Hlr & _);
    [rewrite calculate_rsi_length; lia |].
  destruct (iloc_neg_Some (calculate_atr df 14) 1) as (la & Hla & _);
    [rewrite calculate_atr_length; lia |].
  unfold bollinger_signal. rewrite Hcp, Hpp, Hcu, Hcl, Hcs, Hpu, Hpl. cbn [mbind option_bind].
  rewrite Hlr, Hla.
  destruct (evaluate symbol pp cp pu pl cu cl cs st) as [st' [[sg why] pos]] eqn:Hev.
  exists pp, cp, pu, pl, cu, cl, cs. eexists. rewrite Hev. cbn [fst snd].
  split; [reflexivity |]. unfold last_two. rewrite Hcp, Hpp.
  repeat (split; [done |]). by exists lr, la.
Qed.

(** X10.  The evaluation of an asset reports ERROR exactly when the
    provider returned nothing or fewer than 50 candles; the reason is then
    "No data" and the engine is untouched.  With 50 candles or more the
    "Calc error" and exception snapshots cannot occur.  The snapshot always
    carries the symbol with "USDT" removed. *)
Theorem error_only_without_data symbol interval st :
  let r := fetch_asset_data symbol interval st in
  (s_signal r.2 = ERROR
   <-> match fetch symbol interval 250%nat with
       | None => True
       | Some df => (length df < 50)%nat
       end)
  /\ (s_signal r.2 = ERROR -> r = (st, error_snapshot symbol "No data"))
  /\ s_symbol r.2 = display_symbol symbol.
Proof.
  intros r. subst r.
  destruct (fetch symbol interval 250%nat) as [df |] eqn:Hf.
  - destruct (Nat.lt_ge_cases (length df) 50) as [Hlt | Hge].
    + rewrite (fetch_short_history _ _ _ _ Hf Hlt). cbn. done.
    + destruct (fetch_enough_history symbol interval df st Hf Hge)
        as (pp & cp & pu & pl & cu & cl & cs & snap & -> & _ & Hsym & Hres & _).
      cbn [fst snd].
      assert (Hne : s_signal snap <> ERROR).
      { pose proof (evaluate_never_error symbol pp cp pu pl cu cl cs st) as Hn.
        rewrite <- Hres in Hn. done. }
      split; [split; [done | lia] |]. split; [done | exact Hsym].
  - unfold fetch_asset_data. rewrite Hf. cbn. done.
Qed.

Lemma snapshot_symbol symbol interval st :
  s_symbol (fetch_asset_data symbol interval st).2 = display_symbol symbol.
Proof.
  destruct (fetch symbol interval 250%nat) as [df |] eqn:Hf.
  - destruct (Nat.lt_ge_cases (length df) 50) as [Hlt | Hge].
    + by rewrite (fetch_short_history _ _ _ _ Hf Hlt).
    + destruct (fetch_enough_history symbol interval df st Hf Hge)
        as (pp & cp & pu & pl & cu & cl & cs & snap & -> & _ & Hsym & _).
      exact Hsym.
  - unfold fetch_asset_data. by rewrite Hf.
Qed.

Lemma scan_snapshots interval assets st (sig : gmap string snapshot) :
  dom (scan_assets interval assets st sig).2 = dom sig ∪ list_to_set assets
  /\ ((forall s snap, sig !! s = Some snap -> s_symbol snap = display_symbol s) ->
      forall s snap,
        (scan_assets interval assets st sig).2 !! s = Some snap ->
        s_symbol snap = display_symbol s).
Proof.
  revert st sig. induction assets as [| a assets IH]; intros st sig.
  - cbn. split; [by rewrite union_empty_r_L | done].
  - cbn [scan_assets].
    pose proof (snapshot_symbol a interval st) as Hsym.
    destruct (fetch_asset_data a interval st) as [st1 snap1]. cbn [snd] in Hsym.
    destruct (IH st1 (<[a := snap1]> sig)) as [Hdom Hkeep]. split.
    + rewrite Hdom, dom_insert_L. cbn [list_to_set].
      rewrite (union_comm_L {[a]} (dom sig)). by rewrite <- union_assoc_L.
    + intros Hsig. apply Hkeep. intros s snap.
      rewrite lookup_insert. case_decide as Heq.
      * subst s. by intros [= <-].
      * apply Hsig.
Qed.

Lemma run_cycle_dom interval assets st :
  dom (latest_signals (run_cycle interval assets st)) = list_to_set assets.
Proof.
  unfold run_cycle.
  destruct (scan_snapshots interval assets st ∅) as [Hdom _].
  destruct (scan_assets interval assets st ∅) as [st' signals].
  cbn [snd latest_signals] in *.
  by rewrite dom_empty_L, union_empty_l_L in Hdom.
Qed.

(** X11.  After a cycle the published snapshots are exactly one per asset
    of the universe, errors included, whatever was published before; each
    carries the display symbol of its asset. *)
Theorem cycle_publishes_one_snapshot_per_asset interval assets st :
  let r := run_cycle interval assets st in
  dom (latest_signals r) = list_to_set assets
  /\ (forall s, s ∈ assets -> is_Some (latest_signals r !! s))
  /\ (forall s snap, latest_signals r !! s = Some snap ->
        s ∈ assets /\ s_symbol snap = display_symbol s).
Proof.
  intros r. subst r. unfold run_cycle.
  destruct (scan_snapshots interval assets st ∅) as [Hdom Hsym].
  destruct (scan_assets interval assets st ∅) as [st' signals].
  cbn [snd latest_signals] in *.
  rewrite dom_empty_L, union_empty_l_L in Hdom.
  split; [done |]. split.
  - intros s Hs. apply elem_of_dom. rewrite Hdom. by apply elem_of_list_to_set.
  - intros s snap Hs. split.
    + assert (Hin : s ∈ dom signals) by (apply elem_of_dom; by eexists).
      rewrite Hdom in Hin. by apply elem_of_list_to_set in Hin.
    + eapply Hsym; [| done]. intros ? ?. by rewrite lookup_empty.
Qed.

Ltac in_list :=
  repeat first [apply list_elem_of_here | apply list_elem_of_further].

Lemma resolve_interval_cases timeframe :
  ((timeframe ∈ supported_intervals) /\ resolve_interval timeframe = timeframe)
  \/ ((timeframe ∉ supported_intervals) /\ resolve_interval timeframe = "1h"%string).
Proof.
  unfold supported_intervals.
  destruct (decide (timeframe = "1m"%string)) as [-> | H1]; [left; split; [in_list | done] |].
  destruct (decide (timeframe = "3m"%string)) as [-> | H2]; [left; split; [in_list | done] |].
  destruct (decide (timeframe = "5m"%string)) as [-> | H3]; [left; split; [in_list | done] |].
  destruct (decide (timeframe = "15m"%string)) as [-> | H4]; [left; split; [in_list | done] |].
  destruct (decide (timeframe = "1h"%string)) as [-> | H5]; [left; split; [in_list | done] |].
  destruct (decide (timeframe = "4h"%string)) as [-> | H6]; [left; split; [in_list | done] |].
  destruct (decide (timeframe = "1d"%string)) as [-> | H7]; [left; split; [in_list | done] |].
  right. split; [rewrite !not_elem_of_cons; repeat split; try done; apply not_elem_of_nil |].
  unfold resolve_interval, interval_map. cbn [list_to_map foldr fst snd].
  rewrite !lookup_insert_ne by done. by rewrite lookup_empty.
Qed.

(** X12.  The update endpoint runs a cycle on one of the seven supported
    intervals only: a supported timeframe is used as given, any other
    string falls back to "1h"; it returns the snapshots it has just
    published, one per asset of the universe. *)
Theorem update_timeframe_uses_supported_interval timeframe st :
  let r := update_timeframe timeframe st in
  resolve_interval timeframe ∈ supported_intervals
  /\ (timeframe ∈ supported_intervals -> resolve_interval timeframe = timeframe)
  /\ (timeframe ∉ supported_intervals -> resolve_interval timeframe = "1h"%string)
  /\ r.1 = run_cycle (resolve_interval timeframe) ASSETS st
  /\ r.2 = latest_signals r.1
  /\ dom r.2 = list_to_set ASSETS.
Proof.
  intros r. subst r.
  destruct (resolve_interval_cases timeframe) as [[Hin Heq] | [Hnin Heq]].
  - split; [by rewrite Heq |]. split; [done |]. split; [done |].
    split; [done |]. split; [done |].
    apply run_cycle_dom.
  - split; [rewrite Heq; unfold supported_intervals; in_list |].
    split; [done |]. split; [done |].
    split; [done |]. split; [done |].
    apply run_cycle_dom.
Qed.

(** ** The market-data fetch *)

(** X13.  [fetch_binance_klines] returns the rows of the first of at most
    three attempts that answers with a non-empty JSON list, and [None] if
    none does; a returned frame is never empty.  It makes the attempts in
    order, stops at the first usable answer, and sleeps at most 7 seconds
    in total, and not at all when the first answer is usable. *)
Theorem klines_retry (respond : nat -> response) :
  let r := fetch_binance_klines respond in
  r.1 = match usable (respond 0%nat), usable (respond 1%nat) with
        | Some df, _ => Some df
        | None, Some df => Some df
        | None, None => usable (respond 2%nat)
        end
  /\ r.1 <> Some []
  /\ requests r.2
     = match usable (respond 0%nat), usable (respond 1%nat) with
       | Some _, _ => [0%nat]
       | None, Some _ => [0%nat; 1%nat]
       | None, None => [0%nat; 1%nat; 2%nat]
       end
  /\ (slept r.2 ≤ 7)%nat
  /\ (usable (respond 0%nat) <> None -> slept r.2 = 0%nat).
Proof.
  intros r. subst r. unfold fetch_binance_klines. cbn [seq klines_loop].
  destruct (respond 0%nat) as [| | [[| ? ?] |]];
    destruct (respond 1%nat) as [| | [[| ? ?] |]];
    destruct (respond 2%nat) as [| | [[| ? ?] |]];
    cbn; repeat split; try done; lia.
Qed.

(** ** Display symbols *)

Lemma remove_all_no_U (s tail : string) :
  (forall c, In c (list_ascii_of_string s) -> c <> "U"%char) ->
  remove_all "USDT" 0 (s +:+ tail) = (s +:+ remove_all "USDT" 0 tail)%string.
Proof.
  induction s as [| c s IH]; intros Hc; [done |].
  change (String c s +:+ tail)%string with (String c (s +:+ tail)).
  change (String c s +:+ remove_all "USDT" 0 tail)%string
    with (String c (s +:+ remove_all "USDT" 0 tail)).
  cbn [remove_all String.prefix].
  destruct (Ascii.ascii_dec "U" c) as [<- | Hne].
  - exfalso. apply (Hc "U"%char); [by left | done].
  - f_equal. apply IH. intros c' Hin. apply Hc. by right.
Qed.

(** X14.  For a base name without the letter U, the display symbol of
    base ++ "USDT" is the base name, and the display symbol of the base
    name alone is the base name itself. *)
Theorem display_symbol_strips_quote (base : string) :
  (forall c, In c (list_ascii_of_string base) -> c <> "U"%char) ->
  display_symbol (base +:+ "USDT") = base
  /\ display_symbol base = base.
Proof.
  intros Hc. unfold display_symbol.
  assert (Hnil : forall s : string, (s +:+ "")%string = s).
  { induction s as [| c s IH]; [done |].
    change (String c s +:+ "")%string with (String c (s +:+ "")). by rewrite IH. }
  split.
  - rewrite remove_all_no_U by done.
    change (remove_all "USDT" 0 "USDT") with ""%string. apply Hnil.
  - pose proof (remove_all_no_U base "" Hc) as H.
    rewrite Hnil in H. rewrite H.
    change (remove_all "USDT" 0 "") with ""%string. apply Hnil.
Qed.

(** ** Further properties of the indicators *)

Lemma all_defined_elem w vals x :
  all_defined w = Some vals -> In x vals -> In (Some x) w.
Proof.
  revert vals. induction w as [| o w IH]; intros vals Hd Hin.
  - cbn in Hd. injection Hd as <-. done.
  - cbn in Hd. destruct o as [y |]; [| done].
    destruct (all_defined w) as [vs |]; [| done]. cbn in Hd. injection Hd as <-.
    destruct Hin as [-> | Hin]; [by left | right; by eapply IH].
Qed.

Lemma window_elem {A} (x : A) w k (s : list A) :
  In x (take w (drop k s)) -> In x s.
Proof.
  intros Hin. apply list_elem_of_In in Hin.
  apply elem_of_take in Hin as (j & Hj & _).
  rewrite lookup_drop in Hj. apply list_elem_of_In.
  by eapply list_elem_of_lookup_2.
Qed.

(** The rolling mean of a series without negative values is not
    negative. *)
Lemma rolling_mean_nonneg s w i g :
  (forall x, In (Some x) s -> 0 <= x) ->
  rolling_mean s w !! i = Some (Some g) -> 0 <= g.
Proof.
  intros Hs H. assert (Hi : (i < length s)%nat).
  { apply lookup_lt_Some in H. unfold rolling_mean in H.
    by rewrite rolling_length in H. }
  unfold rolling_mean in H. rewrite rolling_lookup in H by done.
  injection H as H. unfold window_at in H.
  destruct (decide _); [| done].
  destruct (all_defined _) as [vals |] eqn:Hd; [| done].
  injection H as <-. unfold mean.
  apply Qdiv_nonneg; [| apply of_nat_nonneg].
  apply py_sum_nonneg, List.Forall_forall. intros x Hx.
  apply Hs. pose proof (all_defined_elem _ _ _ Hd Hx) as Hin.
  by apply window_elem in Hin.
Qed.

Lemma rsi_value_range g l eps :
  0 <= g -> 0 <= l -> 0 < eps ->
  0 <= 100 - 100 / (1 + g / (l + eps))
  /\ 100 - 100 / (1 + g / (l + eps)) < 100.
Proof.
  intros Hg Hl Heps.
  assert (Hrs : 0 <= g / (l + eps)) by (apply Qdiv_nonneg; lra).
  set (rs := g / (l + eps)) in *.
  assert (Hq1 : 100 / (1 + rs) <= 100) by (apply Qle_shift_div_r; lra).
  assert (Hq2 : 0 < 100 / (1 + rs)) by (apply Qlt_shift_div_l; lra).
  split; lra.
Qed.

Lemma rsi_in_range_at prices period i v :
  calculate_rsi prices period !! i = Some (Some v) ->
  0 <= v /\ v < 100.
Proof.
  unfold calculate_rsi. intros H.
  rewrite list_lookup_fmap in H.
  destruct (zip_with _ _ _ !! i) as [ors |] eqn:Hz; [| done].
  cbn in H. injection H as H. destruct ors as [rs |]; [| done].
  cbn in H. injection H as <-.
  apply lookup_zip_with_Some in Hz as (og & ol & Hrs & Hg & Hl).
  destruct og as [g |], ol as [l |]; try done. cbn in Hrs. injection Hrs as ->.
  assert (Hg0 : 0 <= g).
  { eapply rolling_mean_nonneg; [| exact Hg]. intros x Hx.
    apply List.in_map_iff in Hx as (d & Hd & _).
    destruct d as [dv |]; [| injection Hd as <-; lra].
    destruct (Qltb 0 dv) eqn:E; injection Hd as <-; [| lra].
    apply Qltb_lt in E. lra. }
  assert (Hl0 : 0 <= l).
  { eapply rolling_mean_nonneg; [| exact Hl]. intros x Hx.
    apply List.in_map_iff in Hx as (d & Hd & _).
    destruct d as [dv |]; [| injection Hd as <-; lra].
    destruct (Qltb dv 0) eqn:E; injection Hd as <-; [| lra].
    apply Qltb_lt in E. lra. }
  apply rsi_value_range; [done | done | reflexivity].
Qed.


Lemma shift_lookup_None (s : list Q) i : shift s !! i = Some None -> i = 0%nat.
Proof.
  unfold shift. intros H. destruct i as [| j]; [done |]. exfalso.
  destruct s as [| x s]; [done |].
  cbn [length take] in H. cbn in H.
  apply lookup_take_Some in H as [H _].
  change (Some x :: map Some s) with (Some <$> (x :: s)) in H.
  rewrite list_lookup_fmap in H. by destruct ((x :: s) !! j).
Qed.

(** X16.  When the first candle has its low at or below its high, no
    ATR value is negative (the true range of every later row is not
    negative whatever the candle). *)
Theorem atr_nonneg df period i v :
  (forall c, head df = Some c -> c_low c <= c_high c) ->
  calculate_atr df period !! i = Some (Some v) ->
  0 <= v.
Proof.
  intros Hfirst H. unfold calculate_atr in H.
  eapply rolling_mean_nonneg; [| exact H]. intros x Hx.
  apply list_elem_of_In, list_elem_of_lookup_1 in Hx as [j Hj].
  apply lookup_zip_with_Some in Hj as (c & pc & Hx & Hc & Hpc).
  destruct pc as [p |]; apply (inj Some) in Hx; subst x.
  - pose proof (py_max_spec (py_max (c_high c - c_low c) (Qabs (c_high c - p)))
                  (Qabs (c_low c - p))) as (_ & Hge & _).
    pose proof (Qabs_nonneg (c_low c - p)). lra.
  - apply shift_lookup_None in Hpc as ->.
    assert (c_low c <= c_high c) by (apply Hfirst; by destruct df; [| injection Hc as ->]).
    lra.
Qed.

Lemma rolling_warm_up agg s w i :
  (i + 1 < w)%nat -> (i < length s)%nat -> rolling agg s w !! i = Some None.
Proof.
  intros Hw Hi. rewrite rolling_lookup by done. unfold window_at.
  destruct (decide _); [lia | done].
Qed.

(** X17.  [calculate_bollinger_bands] returns [None] exactly when the
    series is shorter than the window; otherwise the three series have one
    entry per price, and the entries of the warm-up prefix (before index
    [len - 1]) are NaN in all three. *)
Theorem bands_shape (prices : list Q) (len : nat) (k : Q) :
  (calculate_bollinger_bands prices len k = None <-> (length prices < len)%nat)
  /\ (forall upper sma lower,
        calculate_bollinger_bands prices len k = Some (upper, sma, lower) ->
        length upper = length prices
        /\ length sma = length prices
        /\ length lower = length prices
        /\ (forall i, (i + 1 < len)%nat -> (i < length prices)%nat ->
              upper !! i = Some None /\ sma !! i = Some None
              /\ lower !! i = Some None)).
Proof.
  split.
  - unfold calculate_bollinger_bands.
    destruct (Nat.ltb_spec (length prices) len); split; try done; lia.
  - intros upper sma lower Hcalc.
    destruct (bands_lengths _ _ _ _ _ _ Hcalc) as (Lu & Lm & Ll).
    repeat (split; [done |]).
    intros i Hw Hi. unfold calculate_bollinger_bands in Hcalc.
    destruct (length prices <? len)%nat; [done |].
    injection Hcalc as <- <- <-.
    assert (Hm : rolling_mean (map Some prices) len !! i = Some None).
    { apply rolling_warm_up; [done | by rewrite length_map]. }
    assert (Hs : rolling_std (map Some prices) len !! i = Some None).
    { apply rolling_warm_up; [done | by rewrite length_map]. }
    split; [| split]; [| done |];
      rewrite lookup_zip_with, Hm; cbn; by rewrite list_lookup_fmap, Hs.
Qed.

(** X18.  [bollinger_signal] fails with an IndexError (and so writes
    nothing) exactly when the closes or one of the bands has fewer than two
    entries or the mean series is empty; otherwise it is the evaluation of
    the state machine on the last two bars. *)
Theorem bollinger_signal_needs_two_bars symbol closes upper lower sma st :
  (bollinger_signal symbol closes upper lower sma st = None
   <-> (length closes < 2 \/ length upper < 2 \/ length lower < 2
        \/ length sma < 1)%nat)
  /\ (forall r, bollinger_signal symbol closes upper lower sma st = Some r ->
        exists pp cp pu pl cu cl cs,
          last_two closes = (Some pp, Some cp)
          /\ last_two upper = (Some pu, Some cu)
          /\ last_two lower = (Some pl, Some cl)
          /\ iloc_neg sma 1 = Some cs
          /\ r = evaluate symbol pp cp pu pl cu cl cs st).
Proof.
  assert (Hi : forall A (s : list A) k, (1 ≤ k)%nat ->
            (iloc_neg s k = None <-> (length s < k)%nat)).
  { intros A s k Hk. unfold iloc_neg. destruct (decide _) as [Hd | Hd].
    - destruct (lookup_lt_is_Some_2 s (length s - k)%nat) as [x Hx]; [lia |].
      rewrite Hx. split; [done | lia].
    - split; [lia | done]. }
  unfold bollinger_signal, last_two.
  destruct (iloc_neg closes 1) as [cp |] eqn:E1.
  2: { apply Hi in E1; [| lia]. split; [split; [lia | done] | done]. }
  destruct (iloc_neg closes 2) as [pp |] eqn:E2.
  2: { apply Hi in E2; [| lia]. split; [split; [lia | done] | done]. }
  destruct (iloc_neg upper 1) as [cu |] eqn:E3.
  2: { apply Hi in E3; [| lia]. split; [split; [lia | done] | done]. }
  destruct (iloc_neg lower 1) as [cl |] eqn:E4.
  2: { apply Hi in E4; [| lia]. split; [split; [lia | done] | done]. }
  destruct (iloc_neg sma 1) as [cs |] eqn:E5.
  2: { apply Hi in E5; [| lia]. split; [split; [lia | done] | done]. }
  destruct (iloc_neg upper 2) as [pu |] eqn:E6.
  2: { apply Hi in E6; [| lia]. split; [split; [lia | done] | done]. }
  destruct (iloc_neg lower 2) as [pl |] eqn:E7.
  2: { apply Hi in E7; [| lia]. split; [split; [lia | done] | done]. }
  cbn. split.
  - split; [done |]. intros Hshort. exfalso.
    assert (forall A (s : list A) k x, iloc_neg s k = Some x -> (k ≤ length s)%nat) as Hs.
    { intros A s k x. unfold iloc_neg. destruct (decide _); [lia | done]. }
    apply Hs in E2, E5, E6, E7. lia.
  - intros r [= <-]. by exists pp, cp, pu, pl, cu, cl, cs.
Qed.

Lemma all_defined_is_Some w : Forall is_Some w -> is_Some (all_defined w).
Proof.
  induction 1 as [| o w [x ->] _ [vals IH]]; [by eexists |].
  cbn. rewrite IH. by eexists.
Qed.

(** Past the warm-up prefix, the rolling mean of a series without NaN has
    a value. *)
Lemma rolling_mean_defined s w i :
  Forall is_Some s -> (1 ≤ w)%nat -> (w - 1 ≤ i < length s)%nat ->
  exists g, rolling_mean s w !! i = Some (Some g).
Proof.
  intros Hs Hw Hi. unfold rolling_mean. rewrite rolling_lookup by lia.
  unfold window_at. destruct (decide _) as [_ | Hn]; [| lia].
  destruct (all_defined_is_Some (take w (drop (i + 1 - w) s))) as [vals ->].
  { by apply Forall_take, Forall_drop. }
  by eexists.
Qed.

Lemma zip_with_Forall_is_Some {A B} (f : A -> B -> option Q) l k :
  (forall a b, is_Some (f a b)) -> Forall is_Some (zip_with f l k).
Proof.
  intros Hf. revert k. induction l as [| a l IH]; intros [| b k]; cbn;
    constructor; auto.
Qed.

Lemma calculate_rsi_defined prices period i :
  (1 ≤ period)%nat -> (period - 1 ≤ i < length prices)%nat ->
  exists v, calculate_rsi prices period !! i = Some (Some v).
Proof.
  intros Hp Hi. unfold calculate_rsi.
  assert (Ld : length (diff prices) = length prices).
  { unfold diff. rewrite length_zip_with, shift_length. lia. }
  edestruct (rolling_mean_defined
               (map (fun d => match d with
                              | Some v => if Qltb 0 v then Some v else Some 0
                              | None => Some 0
                              end) (diff prices)) period i) as [g Hg];
    [| done | rewrite length_map; lia |].
  { apply Forall_fmap, Forall_forall. intros [d |] _; cbn; [| by eexists].
    destruct (Qltb 0 d); by eexists. }
  edestruct (rolling_mean_defined
               (map (fun d => match d with
                              | Some v => if Qltb v 0 then Some (- v) else Some (- 0)
                              | None => Some (- 0)
                              end) (diff prices)) period i) as [l Hl];
    [| done | rewrite length_map; lia |].
  { apply Forall_fmap, Forall_forall. intros [d |] _; cbn; [| by eexists].
    destruct (Qltb d 0); by eexists. }
  eexists. rewrite list_lookup_fmap, lookup_zip_with, Hg, Hl. cbn. reflexivity.
Qed.

Lemma calculate_atr_defined df period i :
  (1 ≤ period)%nat -> (period - 1 ≤ i < length df)%nat ->
  exists v, calculate_atr df period !! i = Some (Some v).
Proof.
  intros Hp Hi. unfold calculate_atr.
  apply rolling_mean_defined; [| done |].
  - apply zip_with_Forall_is_Some. intros c [p |]; by eexists.
  - rewrite length_zip_with, shift_length, length_map. lia.
Qed.

(** X19.  The RSI and ATR series have one entry per input row; both are
    NaN before index [period - 1] and have a value from there on: the
    first difference and the first previous close are NaN in pandas, but
    they are replaced by 0, respectively skipped, before the rolling mean
    is taken. *)
Theorem oscillators_shape (df : list candle) (period : nat) :
  let prices := map c_close df in
  let rsi := calculate_rsi prices period in
  let atr := calculate_atr df period in
  length rsi = length df
  /\ length atr = length df
  /\ (forall i, (i + 1 < period)%nat -> (i < length df)%nat ->
        rsi !! i = Some None /\ atr !! i = Some None)
  /\ (forall i, (1 ≤ period)%nat -> (period - 1 ≤ i < length df)%nat ->
        (exists v, rsi !! i = Some (Some v))
        /\ (exists v, atr !! i = Some (Some v))).
Proof.
  intros prices rsi atr. subst rsi atr prices.
  rewrite calculate_rsi_length, calculate_atr_length, length_map.
  split; [done |]. split; [done |]. split.
  - intros i Hw Hi. split.
    + unfold calculate_rsi.
      assert (Ld : length (diff (map c_close df)) = length df).
      { unfold diff. rewrite length_zip_with, shift_length, length_map. lia. }
      rewrite list_lookup_fmap, lookup_zip_with. unfold rolling_mean.
      rewrite !rolling_warm_up by (rewrite ?length_map, ?Ld; lia). done.
    + unfold calculate_atr, rolling_mean. apply rolling_warm_up; [done |].
      rewrite length_zip_with, shift_length, length_map. lia.
  - intros i Hp Hi. split.
    + apply calculate_rsi_defined; [done | by rewrite length_map].
    + by apply calculate_atr_defined.
Qed.

Lemma rint_range y n :
  0 <= y -> y <= inject_Z n -> (0 ≤ rint y ≤ n)%Z.
Proof.
  intros H0 Hn. unfold rint.
  pose proof (Qfloor_le y) as Hfl.
  assert (Hf0 : (0 ≤ Qfloor y)%Z).
  { change 0%Z with (Qfloor 0). by apply Qfloor_resp_le. }
  assert (Hfn : (Qfloor y ≤ n)%Z).
  { rewrite <- (Qfloor_Z n). by apply Qfloor_resp_le. }
  assert (Hstep : inject_Z (Qfloor y) < y -> (Qfloor y + 1 ≤ n)%Z).
  { intros Hlt. assert (inject_Z (Qfloor y) < inject_Z n) as Hq by lra.
    rewrite <- Zlt_Qlt in Hq. lia. }
  destruct (Qltb (y - inject_Z (Qfloor y)) (1 # 2)) eqn:E1; [lia |].
  apply Qltb_ge in E1.
  destruct (Qltb (1 # 2) (y - inject_Z (Qfloor y))); [split; [lia | apply Hstep; lra] |].
  destruct (Z.even (Qfloor y)); [lia | split; [lia | apply Hstep; lra]].
Qed.

Lemma py_round_percent v : 0 <= v -> v <= 100 -> 0 <= py_round v 2 /\ py_round v 2 <= 100.
Proof.
  intros H0 H100. unfold py_round.
  change (inject_Z (10 ^ Z.of_nat 2)) with (inject_Z 100).
  destruct (rint_range (v * inject_Z 100) 10000) as [Hlo Hhi].
  - change (inject_Z 100) with 100. lra.
  - change (inject_Z 100) with 100. change (inject_Z 10000) with 10000. lra.
  - rewrite Zle_Qle in Hlo, Hhi.
    change (inject_Z 0) with 0 in Hlo. change (inject_Z 10000) with 10000 in Hhi.
    change (inject_Z 100) with 100 in *.
    set (r := inject_Z (rint (v * 100))) in *.
    split; [apply Qle_shift_div_l; lra | apply Qle_shift_div_r; lra].
Qed.

(** X20.  With 50 candles or more, the RSI and ATR of the snapshot are the
    last values of the two series, rounded to 2 and 4 places: the
    fallbacks 50 and 0 for a NaN are never used, and the reported RSI lies
    between 0 and 100. *)
Theorem snapshot_oscillators symbol interval df st :
  fetch symbol interval 250%nat = Some df ->
  (50 ≤ length df)%nat ->
  let snap := (fetch_asset_data symbol interval st).2 in
  exists v a,
    iloc_neg (calculate_rsi (map c_close df) 14) 1 = Some (Some v)
    /\ iloc_neg (calculate_atr df 14) 1 = Some (Some a)
    /\ s_rsi snap = py_round v 2
    /\ s_atr snap = py_round a 4
    /\ 0 <= s_rsi snap /\ s_rsi snap <= 100.
Proof.
  intros Hf Hlen snap. subst snap.
  destruct (fetch_enough_history symbol interval df st Hf Hlen)
    as (pp & cp & pu & pl & cu & cl & cs & snap & -> & _ & _ & _ & _
        & lr & la & Hlr & Hla & Hrsi & Hatr).
  cbn [snd].
  destruct (calculate_rsi_defined (map c_close df) 14 (length df - 1)) as [v Hv];
    [lia | rewrite length_map; lia |].
  destruct (calculate_atr_defined df 14 (length df - 1)) as [a Ha]; [lia | lia |].
  assert (Hlr' : lr = Some v).
  { unfold iloc_neg in Hlr. rewrite calculate_rsi_length, length_map in Hlr.
    destruct (decide _); [| done]. rewrite Hv in Hlr. by injection Hlr. }
  assert (Hla' : la = Some a).
  { unfold iloc_neg in Hla. rewrite calculate_atr_length in Hla.
    destruct (decide _); [| done]. rewrite Ha in Hla. by injection Hla. }
  subst lr la. exists v, a.
  split; [done |]. split; [done |]. split; [done |]. split; [done |].
  rewrite Hrsi.
  destruct (rsi_in_range_at (map c_close df) 14 (length df - 1) v Hv) as [Hv0 Hv1].
  apply py_round_percent; lra.
Qed.

(** X21.  When the provider's answer for an asset is that of
    [fetch_binance_klines] and none of its three attempts is answered with
    a non-empty JSON list, the asset reports ERROR with reason "No data"
    and the engine is left as it was. *)
Theorem failed_fetch_reports_no_data symbol interval st respond :
  fetch symbol interval 250%nat = (fetch_binance_klines respond).1 ->
  usable (respond 0%nat) = None ->
  usable (respond 1%nat) = None ->
  usable (respond 2%nat) = None ->
  (fetch_binance_klines respond).1 = None
  /\ fetch_asset_data symbol interval st = (st, error_snapshot symbol "No data").
Proof.
  intros Hf H0 H1 H2.
  assert (Hnone : (fetch_binance_klines respond).1 = None).
  { unfold fetch_binance_klines. cbn [seq klines_loop].
    destruct (respond 0%nat) as [| | [[| ? ?] |]]; try done;
      destruct (respond 1%nat) as [| | [[| ? ?] |]]; try done;
      destruct (respond 2%nat) as [| | [[| ? ?] |]]; done. }
  split; [done |]. unfold fetch_asset_data. by rewrite Hf, Hnone.
Qed.

End Dashboard.

(** ** The model on concrete inputs *)

Lemma sqrt_floor_nonneg x : 0 <= sqrt_floor x.
Proof.
  unfold sqrt_floor, Qle. cbn [Qnum Qden].
  rewrite Z.mul_0_l, Z.mul_1_r. apply Z.sqrt_nonneg.
Qed.

(** A flat asset whose close crosses above the upper band opens a long at
    the close, with the stop 2% below. *)
Example scenario_new_long :
  let r := evaluate sqrt_floor "BTCUSDT" 100 101 (Some 100.5) (Some 97)
             (Some 100.8) (Some 97.2) (Some 99) engine0 in
  active_trades r.1 !! "BTCUSDT"%string = Some (open_position BUY 101)
  /\ stop_loss (open_position BUY 101) == 98.98
  /\ r.2 = (Sig BUY, mk_reason "NEW LONG" None, Some (open_info BUY 101)).
Proof. vm_compute. repeat split; reflexivity. Qed.

(** A long entered at 100 that has seen 105 is closed at 102.8 by its
    trailing stop, for a net P&L of 2.6. *)
Example scenario_trailing_exit :
  let held := mk_position 100 BUY 100 100 (100 * 0.98) Initial in
  let st1 := put_trade "BTCUSDT" held engine0 in
  let st2 := (evaluate sqrt_floor "BTCUSDT" 100 105 (Some 101) (Some 97)
                (Some 103) (Some 97) (Some 100) st1).1 in
  let st3 := (evaluate sqrt_floor "BTCUSDT" 105 102.8 (Some 103) (Some 97)
                (Some 104) (Some 98) (Some 101) st2).1 in
  (stop_loss <$> active_trades st2 !! "BTCUSDT"%string) = Some (105 * 0.98)
  /\ active_trades st3 !! "BTCUSDT"%string = None
  /\ (t_reason <$> trade_history st3) = ["Trailing"%string]
  /\ Forall (fun t => t_pnl t == 2.6) (trade_history st3).
Proof.
  vm_compute. repeat split; try reflexivity.
  constructor; [reflexivity | constructor].
Qed.

(** C2 at a concrete state: the long of the scenario above, reached from
    the initial engine, breaches its trailing stop at 102.8. *)
Lemma breached_stop_closes_witness :
  let s := "BTCUSDT"%string in
  let st1 := (evaluate sqrt_floor s 99 100 (Some 99.8) (Some 96) (Some 99.5)
                (Some 96.5) (Some 98) engine0).1 in
  let st2 := (evaluate sqrt_floor s 100 105 (Some 99.5) (Some 96.5) (Some 103)
                (Some 97) (Some 100) st1).1 in
  let e := mk_position 100 BUY 105 100 (105 * 0.98) Trailing in
  let st3 := (evaluate sqrt_floor s 105 102.8 (Some 103) (Some 97) (Some 104)
                (Some 98) (Some 101) st2).1 in
  reachable sqrt_floor st2
  /\ active_trades st2 !! s = Some e
  /\ breaches (managed e 102.8) 102.8
  /\ active_trades st3 !! s = None
  /\ trade_history st3
     = deque_append HISTORY_MAXLEN (trade_history st2)
         (mk_trade s 100 102.8 BUY (unrealized e 102.8 - TRADING_FEE * 200) "Trailing").
Proof.
  intros s st1 st2 e st3.
  assert (Hr : reachable sqrt_floor st2).
  { subst st2 st1. repeat (apply reach_eval; [| reflexivity]). apply reach_start. }
  assert (He : active_trades st2 !! s = Some e) by (vm_compute; reflexivity).
  assert (Hb : breaches (managed e 102.8) 102.8) by (vm_compute; discriminate).
  destruct (breached_stop_closes sqrt_floor st2 s e 105 102.8 (Some 103) (Some 97)
              (Some 104) (Some 98) (Some 101) Hr He Hb) as (_ & _ & Hnone & Hhist).
  repeat split; assumption.
Defined.

(** C10 at a concrete state: the long entered at 100 after it has seen
    105. *)
Lemma extremes_bracket_entry_witness :
  let s := "BTCUSDT"%string in
  let st1 := (evaluate sqrt_floor s 99 100 (Some 99.8) (Some 96) (Some 99.5)
                (Some 96.5) (Some 98) engine0).1 in
  let st2 := (evaluate sqrt_floor s 100 105 (Some 99.5) (Some 96.5) (Some 103)
                (Some 97) (Some 100) st1).1 in
  let e := mk_position 100 BUY 105 100 (105 * 0.98) Trailing in
  reachable sqrt_floor st2
  /\ active_trades st2 !! s = Some e
  /\ lowest_since_entry e <= entry_price e
  /\ entry_price e <= highest_since_entry e.
Proof.
  intros s st1 st2 e.
  assert (Hr : reachable sqrt_floor st2).
  { subst st2 st1. repeat (apply reach_eval; [| reflexivity]). apply reach_start. }
  assert (He : active_trades st2 !! s = Some e) by (vm_compute; reflexivity).
  destruct (extremes_bracket_entry sqrt_floor st2 s 105 104 (Some 103) (Some 97)
              (Some 104) (Some 98) (Some 101) Hr) as [Hinv _].
  destruct (Hinv s e He) as [Hlo Hhi].
  repeat split; assumption.
Defined.

(** C9 at two histories that differ before their last two bars. *)
Lemma breakout_is_two_bar_crossover_witness :
  let closes := [90; 100; 101] in
  let closes' := [120; 110; 100; 101] in
  let upper := [None; Some 100.5; Some 100.8] in
  let upper' := [None; None; Some 100.5; Some 100.8] in
  let lower := [None; Some 97; Some 97.2] in
  let lower' := [None; None; Some 97; Some 97.2] in
  last_two closes = last_two closes'
  /\ last_two upper = last_two upper'
  /\ last_two lower = last_two lower'
  /\ breakout_signals closes upper lower = breakout_signals closes' upper' lower'
  /\ breakout_signals closes upper lower = Some (true, false).
Proof.
  intros closes closes' upper upper' lower lower'.
  assert (Hc : last_two closes = last_two closes') by reflexivity.
  assert (Hu : last_two upper = last_two upper') by reflexivity.
  assert (Hl : last_two lower = last_two lower') by reflexivity.
  destruct (breakout_is_two_bar_crossover sqrt_floor closes closes' upper upper'
              lower lower' Hc Hu Hl) as (Heq & _ & _).
  split; [exact Hc |]. split; [exact Hu |]. split; [exact Hl |].
  split; [exact Heq | reflexivity].
Defined.

(** C8 at a 21-bar history with the program's parameters. *)
Lemma bands_bracket_moving_average_witness :
  let prices := [99; 101; 99; 101; 99; 101; 99; 101; 99; 101;
                 99; 101; 99; 101; 99; 101; 99; 101; 99; 101; 100] in
  0 <= 1
  /\ (20 ≤ length prices)%nat
  /\ exists upper sma lower,
       calculate_bollinger_bands sqrt_floor prices 20 1 = Some (upper, sma, lower)
       /\ exists u m l,
            upper !! 20%nat = Some (Some u) /\ sma !! 20%nat = Some (Some m)
            /\ lower !! 20%nat = Some (Some l) /\ l <= m /\ m <= u.
Proof.
  intros prices.
  assert (Hk : 0 <= 1) by lra.
  assert (Hlen : (20 ≤ length prices)%nat) by (vm_compute; lia).
  split; [exact Hk |]. split; [exact Hlen |].
  destruct (bands_bracket_moving_average sqrt_floor sqrt_floor_nonneg prices 20 1
              Hk Hlen) as (upper & sma & lower & Hcalc & Hdef & Hord).
  exists upper, sma, lower. split; [exact Hcalc |].
  destruct (Hdef 20%nat) as [u Hu]; [lia | vm_compute; lia |].
  destruct (Hord 20%nat u Hu) as (m & sd & l & Hm & _ & Hl & _ & _ & Hlm & Hmu).
  exists u, m, l. repeat split; assumption.
Defined.

(** C5 at a provider that returns 30 candles for one asset and nothing
    else. *)
Lemma short_history_reports_error_witness :
  let bar := mk_candle 100 101 99 100 5 in
  let fetch := fun (symbol interval : string) (limit : nat) =>
                 if String.eqb symbol "ETHUSDT" then Some (repeat bar 30) else None in
  fetch "ETHUSDT"%string "1h"%string 250%nat = Some (repeat bar 30)
  /\ (length (repeat bar 30) < 50)%nat
  /\ fetch_asset_data sqrt_floor fetch "ETHUSDT" "1h" engine0
     = (engine0, error_snapshot "ETHUSDT" "No data")
  /\ s_symbol (error_snapshot "ETHUSDT" "No data") = "ETH"%string.
Proof.
  intros bar fetch.
  assert (Hf : fetch "ETHUSDT"%string "1h"%string 250%nat = Some (repeat bar 30))
    by reflexivity.
  assert (Hlen : (length (repeat bar 30) < 50)%nat) by (vm_compute; lia).
  destruct (short_history_reports_error sqrt_floor fetch "ETHUSDT" "1h"
              (repeat bar 30) Hf Hlen) as (Hstep & _).
  split; [exact Hf |]. split; [exact Hlen |].
  split; [apply Hstep | reflexivity].
Defined.

(** C4 at a 22-bar history: a short entered at 100 meets an upward
    breakout at 101.5 and is reversed into a long. *)
Lemma reversal_is_the_only_close_and_open_witness :
  let s := "BTCUSDT"%string in
  let closes := [99; 101; 99; 101; 99; 101; 99; 101; 99; 101;
                 99; 101; 99; 101; 99; 101; 99; 101; 99; 101; 100; 101.5] in
  let st := (evaluate sqrt_floor s 100.5 100 (Some 103) (Some 100.2) (Some 103)
               (Some 100.1) (Some 101.5) engine0).1 in
  (forall x, 0 <= sqrt_floor x)
  /\ (20 ≤ length closes)%nat
  /\ active_trades st !! s = Some (open_position SELL 100)
  /\ exists upper sma lower st' out,
       calculate_bollinger_bands sqrt_floor closes 20 1 = Some (upper, sma, lower)
       /\ bollinger_signal sqrt_floor s closes upper lower sma st = Some (st', out)
       /\ active_trades st' !! s = Some (open_position BUY 101.5)
       /\ (t_reason <$> trade_history st') = ["Reversal"%string]
       /\ out.1.1 = Sig BUY.
Proof.
  intros s closes st.
  assert (Hlen : (20 ≤ length closes)%nat) by (vm_compute; lia).
  split; [exact sqrt_floor_nonneg |]. split; [exact Hlen |].
  split; [vm_compute; reflexivity |].
  destruct (reversal_is_the_only_close_and_open sqrt_floor sqrt_floor_nonneg
              s closes st Hlen)
    as (upper & sma & lower & st' & out & pp & cp & pu & pl & cu & cl & cs
        & Hcalc & Hsig & _).
  exists upper, sma, lower, st', out.
  split; [exact Hcalc |]. split; [exact Hsig |].
  vm_compute in Hcalc. injection Hcalc as <- <- <-.
  vm_compute in Hsig. injection Hsig as <- <-.
  vm_compute. repeat split; reflexivity.
Defined.

(** Outside the program: called directly with a lower band above the upper
    band, both breakouts can fire at once, and a short that is reversed is
    then reopened as a short. *)
Example crossed_bands_reopen_same_side :
  let s := "BTCUSDT"%string in
  let st := put_trade s (open_position SELL 100) engine0 in
  let r := evaluate sqrt_floor s 100 101 (Some 100.5) (Some 99) (Some 99)
             (Some 102) (Some 95) st in
  new_buy_signal 100 101 (Some 100.5) (Some 99) = true
  /\ new_sell_signal 100 101 (Some 99) (Some 102) = true
  /\ active_trades r.1 !! s = Some (open_position SELL 101)
  /\ (t_reason <$> trade_history r.1) = ["Reversal"%string].
Proof. vm_compute. repeat split; reflexivity. Qed.

(** ** The further properties on concrete inputs *)

(** A long opened at 100, trailed at 105, and stopped out at 102.8. *)
Local Abbreviation demo_open :=
  (evaluate sqrt_floor "BTCUSDT" 99 100 (Some 99.8) (Some 96) (Some 99.5)
     (Some 96.5) (Some 98) engine0).1.
Local Abbreviation demo_trailing :=
  (evaluate sqrt_floor "BTCUSDT" 100 105 (Some 99.5) (Some 96.5) (Some 103)
     (Some 97) (Some 100) demo_open).1.
Local Abbreviation demo_closed :=
  (evaluate sqrt_floor "BTCUSDT" 105 102.8 (Some 103) (Some 97) (Some 104)
     (Some 98) (Some 101) demo_trailing).1.

Lemma demo_closed_reachable : reachable sqrt_floor demo_closed.
Proof. repeat (apply reach_eval; [| reflexivity]). apply reach_start. Qed.

Lemma demo_trailing_reachable : reachable sqrt_floor demo_trailing.
Proof. repeat (apply reach_eval; [| reflexivity]). apply reach_start. Qed.

Lemma ledger_trades_consistent_witness :
  reachable sqrt_floor demo_closed
  /\ length (trade_history demo_closed) = 1%nat
  /\ Forall trade_ok (trade_history demo_closed).
Proof.
  split; [exact demo_closed_reachable |]. split; [vm_compute; reflexivity |].
  exact (ledger_trades_consistent sqrt_floor demo_closed demo_closed_reachable).
Defined.


Lemma stored_stop_determined_witness :
  let p := mk_position 100 BUY 105 100 (105 * 0.98) Trailing in
  reachable sqrt_floor demo_trailing
  /\ active_trades demo_trailing !! "BTCUSDT"%string = Some p
  /\ stop_loss p == stop_of p
  /\ entry_price p * 0.98 <= stop_loss p
  /\ stop_loss p <= highest_since_entry p * 0.98.
Proof.
  intros p.
  assert (Hp : active_trades demo_trailing !! "BTCUSDT"%string = Some p)
    by (vm_compute; reflexivity).
  destruct (stored_stop_determined sqrt_floor demo_trailing "BTCUSDT" p
              demo_trailing_reachable Hp) as (Hdet & Hlo & Hhi).
  split; [exact demo_trailing_reachable |]. split; [exact Hp |].
  split; [exact Hdet |]. split; [exact Hlo | exact Hhi].
Defined.

Lemma summary_is_function_of_ledger_witness :
  reachable sqrt_floor demo_closed
  /\ (length (trade_history demo_closed) ≤ 200)%nat
  /\ performance_metrics demo_closed
     = update_performance_metrics sqrt_floor (trade_history demo_closed) metrics0.
Proof.
  split; [exact demo_closed_reachable |].
  exact (summary_is_function_of_ledger sqrt_floor demo_closed demo_closed_reachable).
Defined.

Lemma near_mean_always_closes_witness :
  let e := mk_position 100 BUY 105 100 (105 * 0.98) Trailing in
  let r := evaluate sqrt_floor "BTCUSDT" 105 104 (Some 103) (Some 97) (Some 104.5)
             (Some 98) (Some 104.1) demo_trailing in
  active_trades demo_trailing !! "BTCUSDT"%string = Some e
  /\ at_sma 104 (Some 104.1) = true
  /\ active_trades r.1 !! "BTCUSDT"%string = None
  /\ r.2.1.1 = NEUTRAL.
Proof.
  intros e r.
  assert (He : active_trades demo_trailing !! "BTCUSDT"%string = Some e)
    by (vm_compute; reflexivity).
  assert (Hn : at_sma 104 (Some 104.1) = true) by (vm_compute; reflexivity).
  destruct (near_mean_always_closes sqrt_floor "BTCUSDT" 105 104 (Some 103) (Some 97)
              (Some 104.5) (Some 98) (Some 104.1) demo_trailing e He Hn)
    as (Hnone & Hsig & _).
  split; [exact He |]. split; [exact Hn |]. split; [exact Hnone | exact Hsig].
Defined.

Lemma display_symbol_strips_quote_witness :
  (forall c, In c (list_ascii_of_string "BTC") -> c <> "U"%char)
  /\ display_symbol "BTCUSDT" = "BTC"%string
  /\ display_symbol "BTC" = "BTC"%string.
Proof.
  assert (Hc : forall c, In c (list_ascii_of_string "BTC") -> c <> "U"%char).
  { intros c [<- | [<- | [<- | []]]]; discriminate. }
  split; [exact Hc |].
  exact (display_symbol_strips_quote "BTC" Hc).
Defined.


Lemma atr_nonneg_witness :
  let df := [mk_candle 10 12 9 11 5; mk_candle 11 13 10 12 5;
             mk_candle 12 12.5 8 9 5] in
  (forall c, head df = Some c -> c_low c <= c_high c)
  /\ exists v, calculate_atr df 2 !! 2%nat = Some (Some v) /\ 0 <= v.
Proof.
  intros df.
  assert (Hfirst : forall c, head df = Some c -> c_low c <= c_high c).
  { intros c [= <-]. vm_compute. discriminate. }
  split; [exact Hfirst |].
  eexists. split; [vm_compute; reflexivity |].
  eapply (atr_nonneg df 2 2 _ Hfirst). vm_compute. reflexivity.
Defined.

Lemma snapshot_oscillators_witness :
  let bar := mk_candle 100 101 99 100 5 in
  let fetch := fun (symbol interval : string) (limit : nat) => Some (repeat bar 50) in
  fetch "BTCUSDT"%string "1h"%string 250%nat = Some (repeat bar 50)
  /\ (50 ≤ length (repeat bar 50))%nat
  /\ 0 <= s_rsi (fetch_asset_data sqrt_floor fetch "BTCUSDT" "1h" engine0).2
  /\ s_rsi (fetch_asset_data sqrt_floor fetch "BTCUSDT" "1h" engine0).2 <= 100.
Proof.
  intros bar fetch.
  assert (Hf : fetch "BTCUSDT"%string "1h"%string 250%nat = Some (repeat bar 50))
    by reflexivity.
  assert (Hlen : (50 ≤ length (repeat bar 50))%nat) by (vm_compute; lia).
  destruct (snapshot_oscillators sqrt_floor fetch "BTCUSDT" "1h" (repeat bar 50)
              engine0 Hf Hlen) as (v & a & _ & _ & _ & _ & Hlo & Hhi).
  split; [exact Hf |]. split; [exact Hlen |]. split; [exact Hlo | exact Hhi].
Defined.

Lemma failed_fetch_reports_no_data_witness :
  let respond := fun _ : nat => RateLimited in
  let fetch := fun (symbol interval : string) (limit : nat) =>
                 (fetch_binance_klines respond).1 in
  fetch "BTCUSDT"%string "1h"%string 250%nat = (fetch_binance_klines respond).1
  /\ usable (respond 0%nat) = None
  /\ fetch_asset_data sqrt_floor fetch "BTCUSDT" "1h" engine0
     = (engine0, error_snapshot "BTCUSDT" "No data")
  /\ slept (fetch_binance_klines respond).2 = 7%nat.
Proof.
  intros respond fetch.
  destruct (failed_fetch_reports_no_data sqrt_floor fetch "BTCUSDT" "1h" engine0
              respond eq_refl eq_refl eq_refl eq_refl) as [_ Hres].
  split; [reflexivity |]. split; [reflexivity |]. split; [exact Hres | reflexivity].
Defined.
